(** * CSS selector builder of [src/05-objects-tasks.js]

    A shallow embedding of the [CurrentBuilder] class and of the
    [cssSelectorBuilder] facade, together with the JSON helpers
    [getJSON] / [fromJSON].

    JavaScript objects are mutable and shared: a builder is modelled as a
    record stored in a heap, a reference to it is an index into that heap,
    and a method is a state transformer over the receiver that either
    returns or throws.  A [throw] keeps every mutation made before it. *)

From Stdlib Require Import ZArith String Ascii List Lia Bool.
From Stdlib Require Import DecimalString DecimalPos DecimalZ.
From stdpp Require Import base list strings.
Import ListNotations.

Local Open Scope string_scope.
Local Open Scope list_scope.
Local Open Scope Z_scope.

(** ** Completions: a call returns a value or throws [Error(message)] *)

Inductive JsError : Type := Error (message : string).

Definition message (e : JsError) : string := let 'Error m := e in m.

Inductive Completion (A : Type) : Type :=
| Normal (a : A)
| Throw (e : JsError).
Arguments Normal {A} a.
Arguments Throw {A} e.

(** A computation over a mutable state [S]. *)
Definition Js (S A : Type) : Type := S -> Completion A * S.

Definition ret {S A} (a : A) : Js S A := fun s => (Normal a, s).

Definition throw {S A} (e : JsError) : Js S A := fun s => (Throw e, s).

Definition bind {S A B} (m : Js S A) (k : A -> Js S B) : Js S B :=
  fun s =>
    match m s with
    | (Normal a, s') => k a s'
    | (Throw e, s') => (Throw e, s')
    end.

Declare Scope js_scope.
Delimit Scope js_scope with js.
Notation "x <- m ;; k" := (bind m (fun x => k))
  (at level 100, m at next level, right associativity) : js_scope.
Notation "m ;; k" := (bind m (fun _ => k))
  (at level 100, right associativity) : js_scope.
Local Open Scope js_scope.

(** ** Array and comparison primitives used by the class *)

(** [Array.prototype.join(sep)] on an array of strings. *)
Definition join (sep : string) (a : list string) : string := String.concat sep a.

(** [Array.prototype.indexOf]: first index holding [x], or [-1]. *)
Fixpoint indexOf_from (a : list string) (x : string) (i : Z) : Z :=
  match a with
  | [] => -1
  | y :: a' => if String.eqb y x then i else indexOf_from a' x (i + 1)
  end.

Definition indexOf (a : list string) (x : string) : Z := indexOf_from a x 0.

(** [Array.prototype.push]. *)
Definition push {A} (a : list A) (x : A) : list A := a ++ [x].

(** [value < this.order] where [this.order] is a number or [undefined]
    ([None]); a comparison with [undefined] is false. *)
Definition js_lt (value : Z) (order : option Z) : bool :=
  match order with
  | Some n => value <? n
  | None => false
  end.

(** ** The class [CurrentBuilder] *)

Module CurrentBuilder.

Record t : Type := Build {
  stack : list string;
  singleStack : list string;
  order : option Z
}.

Definition set_stack (s : list string) (this : t) : t :=
  Build s (singleStack this) (order this).
Definition set_singleStack (s : list string) (this : t) : t :=
  Build (stack this) s (order this).
Definition set_order (o : option Z) (this : t) : t :=
  Build (stack this) (singleStack this) o.

(** A method body: a computation over the receiver [this]. *)
Definition Method (A : Type) : Type := Js t A.

Definition uniq_message : string :=
  "Element, id and pseudo-element should not occur more then one time inside the selector".

Definition order_message : string :=
  "Selector parts should be arranged in the following order: element, id, class, attribute, pseudo-class, pseudo-element".

(** [id] is a string or [undefined] ([None]); [if (id)] holds for a
    non-empty string only. *)
Definition constructor (value : string) (order : option Z) (id : option string) : t :=
  let this := Build [] [] order in
  let this := match id with
              | Some s =>
                  if String.eqb s "" then this
                  else set_singleStack (push (singleStack this) s) this
              | None => this
              end in
  set_stack (push (stack this) value) this.

Definition stringify : Method string := fun this =>
  let res := join "" (stack this) in
  (Normal res, set_stack [] this).

Definition testUniq (value : string) : Method unit := fun this =>
  if indexOf (singleStack this) value >? -1
  then throw (Error uniq_message) this
  else (Normal tt, set_singleStack (push (singleStack this) value) this).

Definition testOrder (value : Z) : Method unit := fun this =>
  if js_lt value (order this)
  then throw (Error order_message) this
  else (Normal tt, set_order (Some value) this).

Definition stack_push (s : string) : Method unit := fun this =>
  (Normal tt, set_stack (push (stack this) s) this).

Definition element (value : string) : Method unit :=
  testUniq "element" ;; testOrder 0 ;; stack_push value.

Definition id (value : string) : Method unit :=
  testUniq "id" ;; testOrder 1 ;; stack_push ("#" +:+ value).

Definition class (value : string) : Method unit :=
  testOrder 2 ;; stack_push ("." +:+ value).

Definition attr (value : string) : Method unit :=
  testOrder 3 ;; stack_push ("[" +:+ value +:+ "]").

Definition pseudoClass (value : string) : Method unit :=
  testOrder 4 ;; stack_push (":" +:+ value).

Definition pseudoElement (value : string) : Method unit :=
  testOrder 5 ;; testUniq "pseudoElement" ;; stack_push ("::" +:+ value).

(** *** Objects on the heap

    [new CurrentBuilder(...)] allocates a fresh object; a reference is the
    index of the object in the heap.  Calling a method through something
    that is not a builder is a [TypeError]. *)

Definition ref : Type := nat.

Abbreviation Heap := (list t).

Definition Prog (A : Type) : Type := Js Heap A.

Definition not_a_builder : JsError := Error "TypeError".

Definition new (value : string) (order : option Z) (id : option string) : Prog ref :=
  fun h => (Normal (length h), h ++ [constructor value order id]).

Definition call {A} (this : ref) (m : Method A) : Prog A := fun h =>
  match h !! this with
  | Some b => let (c, b') := m b in (c, <[this := b']> h)
  | None => (Throw not_a_builder, h)
  end.

(** A method that ends in [return this]. *)
Definition send (this : ref) (m : Method unit) : Prog ref :=
  call this m ;; ret this.

Definition combinatorValue (combinator : string) : string :=
  if String.eqb combinator "" then combinator else " " +:+ combinator +:+ " ".

Definition combine (this selector1 : ref) (combinator : string) (selector2 : ref)
  : Prog ref :=
  sel1Value <- call selector1 stringify ;;
  sel2Value <- call selector2 stringify ;;
  send this (stack_push ((sel1Value +:+ combinatorValue combinator) +:+ sel2Value)).

End CurrentBuilder.

(** ** The facade [cssSelectorBuilder] *)

Module cssSelectorBuilder.
Import CurrentBuilder.

Definition element (value : string) : Prog ref :=
  new value (Some 0) (Some "element").

Definition id (value : string) : Prog ref :=
  new ("#" +:+ value) (Some 1) (Some "id").

Definition class (value : string) : Prog ref :=
  new ("." +:+ value) (Some 2) (Some "class").

Definition attr (value : string) : Prog ref :=
  new ("[" +:+ value +:+ "]") (Some 3) (Some "attr").

Definition pseudoClass (value : string) : Prog ref :=
  new (":" +:+ value) (Some 4) (Some "pseudoClass").

Definition pseudoElement (value : string) : Prog ref :=
  new ("::" +:+ value) (Some 5) (Some "pseudoElement").

Definition combine (selector1 : ref) (combinator : string) (selector2 : ref)
  : Prog ref :=
  sel1Value <- call selector1 stringify ;;
  sel2Value <- call selector2 stringify ;;
  new ((sel1Value +:+ combinatorValue combinator) +:+ sel2Value) None None.

End cssSelectorBuilder.

(** ** Fragment kinds: the vocabulary of the grammar table

    The six append methods and the six seeding entries of the facade,
    indexed by the kind of fragment they add. *)

Inductive Fragment : Type :=
| FElement | FId | FClass | FAttr | FPseudoClass | FPseudoElement.

Module Grammar.
Import CurrentBuilder.

(** The method of [CurrentBuilder] that appends a fragment of kind [k]. *)
Definition append (k : Fragment) (value : string) : Method unit :=
  match k with
  | FElement => CurrentBuilder.element value
  | FId => CurrentBuilder.id value
  | FClass => CurrentBuilder.class value
  | FAttr => CurrentBuilder.attr value
  | FPseudoClass => CurrentBuilder.pseudoClass value
  | FPseudoElement => CurrentBuilder.pseudoElement value
  end.

(** The entry of the facade that seeds a builder with a fragment of kind [k]. *)
Definition seed (k : Fragment) (value : string) : Prog ref :=
  match k with
  | FElement => cssSelectorBuilder.element value
  | FId => cssSelectorBuilder.id value
  | FClass => cssSelectorBuilder.class value
  | FAttr => cssSelectorBuilder.attr value
  | FPseudoClass => cssSelectorBuilder.pseudoClass value
  | FPseudoElement => cssSelectorBuilder.pseudoElement value
  end.

(** The number each method passes to [testOrder]. *)
Definition rank (k : Fragment) : Z :=
  match k with
  | FElement => 0 | FId => 1 | FClass => 2
  | FAttr => 3 | FPseudoClass => 4 | FPseudoElement => 5
  end.

(** The string each method pushes: the value with its CSS punctuation. *)
Definition prefixed (k : Fragment) (value : string) : string :=
  match k with
  | FElement => value
  | FId => "#" +:+ value
  | FClass => "." +:+ value
  | FAttr => "[" +:+ value +:+ "]"
  | FPseudoClass => ":" +:+ value
  | FPseudoElement => "::" +:+ value
  end.

(** The tag under which the facade records the seeding kind, and under
    which [testUniq] records the kinds it guards. *)
Definition tag (k : Fragment) : string :=
  match k with
  | FElement => "element" | FId => "id" | FClass => "class"
  | FAttr => "attr" | FPseudoClass => "pseudoClass"
  | FPseudoElement => "pseudoElement"
  end.

(** The kinds whose method calls [testUniq]. *)
Definition once (k : Fragment) : bool :=
  match k with
  | FElement | FId | FPseudoElement => true
  | _ => false
  end.

(** The test of [testUniq]: is the tag of [k] in [singleStack]? *)
Definition seen (k : Fragment) (b : t) : bool :=
  indexOf (singleStack b) (tag k) >? -1.

(** The state in which a builder is after a run of append attempts, each
    one caught by the caller whether it returned or threw. *)
Fixpoint attempts (fs : list (Fragment * string)) (b : t) : t :=
  match fs with
  | [] => b
  | (k, v) :: fs' => attempts fs' (snd (append k v b))
  end.

(** The fluent chain [r.k1(v1).k2(v2)...]: each call is made on the
    reference the previous one returned, and a throw ends the chain. *)
Fixpoint chain (r : ref) (fs : list (Fragment * string)) : Prog ref :=
  match fs with
  | [] => ret r
  | (k, v) :: fs' => r' <- send r (append k v) ;; chain r' fs'
  end.

(** [facade.k0(v0).k1(v1)...kn(vn)]. *)
Definition build_ref (k0 : Fragment) (v0 : string) (fs : list (Fragment * string))
  : Prog ref :=
  r <- seed k0 v0 ;; chain r fs.

(** [facade.k0(v0).k1(v1)...kn(vn).stringify()]. *)
Definition build (k0 : Fragment) (v0 : string) (fs : list (Fragment * string))
  : Prog string :=
  r <- build_ref k0 v0 fs ;; call r stringify.

(** The two reads of [combine(selector1, c, selector2)] when [selector1]
    denotes [b1] and [selector2] denotes [b2]: the object the second read
    finds (already emptied when both selectors are one object), the two
    strings read, and the heap after both reads. *)
Definition second_operand (s1 s2 : ref) (b1 b2 : t) : t :=
  if decide (s1 = s2) then set_stack [] b1 else b2.

Definition first_read (b1 : t) : string := join "" (stack b1).

Definition second_read (s1 s2 : ref) (b2 : t) : string :=
  if decide (s1 = s2) then "" else join "" (stack b2).

Definition after_reads (h : Heap) (s1 s2 : ref) (b1 b2 : t) : Heap :=
  <[s2 := set_stack [] (second_operand s1 s2 b1 b2)]> (<[s1 := set_stack [] b1]> h).

(** The same chain seen from the receiver: the appends in order, the
    first throw ending it. *)
Fixpoint appends (fs : list (Fragment * string)) : Method unit :=
  match fs with
  | [] => ret tt
  | (k, v) :: fs' => append k v ;; appends fs'
  end.

(** Ranks never go down along the sequence. *)
Fixpoint ranks_from (r : Z) (fs : list (Fragment * string)) : bool :=
  match fs with
  | [] => true
  | (k, _) :: fs' => (r <=? rank k) && ranks_from (rank k) fs'
  end.

Definition ranks_nondecreasing (fs : list (Fragment * string)) : bool :=
  match fs with
  | [] => true
  | (k, _) :: fs' => ranks_from (rank k) fs'
  end.

Definition Fragment_eqb (k k' : Fragment) : bool := rank k =? rank k'.

Fixpoint occurrences (k : Fragment) (fs : list (Fragment * string)) : nat :=
  match fs with
  | [] => O
  | (k', _) :: fs' => ((if Fragment_eqb k k' then 1 else 0) + occurrences k fs')%nat
  end.

(** Element, id and pseudo-element occur at most once in the sequence. *)
Definition seen_once_rule (fs : list (Fragment * string)) : bool :=
  (occurrences FElement fs <=? 1)%nat
  && (occurrences FId fs <=? 1)%nat
  && (occurrences FPseudoElement fs <=? 1)%nat.

(** The concatenation the selector denotes. *)
Definition rendered (fs : list (Fragment * string)) : string :=
  join "" (map (fun f => prefixed (fst f) (snd f)) fs).

(** The kinds whose method calls [testUniq] before [testOrder]. *)
Definition uniq_first (k : Fragment) : bool :=
  match k with
  | FElement | FId => true
  | _ => false
  end.

(** The states a builder object can be in: it is created by one of the
    seven entries of the facade, and changed by the append methods (which
    may throw half-way), by [stringify] and by the push of [combine]. *)
Inductive reachable : t -> Prop :=
| reach_seed k v :
    reachable (constructor (prefixed k v) (Some (rank k)) (Some (tag k)))
| reach_combined s :
    reachable (constructor s None None)
| reach_append k v b :
    reachable b -> reachable (snd (append k v b))
| reach_stringify b :
    reachable b -> reachable (snd (stringify b))
| reach_push s b :
    reachable b -> reachable (snd (stack_push s b)).

(** [this.order] is [undefined] or one of the six ranks. *)
Definition order_ok (b : t) : Prop :=
  match order b with
  | Some n => 0 <= n <= 5
  | None => True
  end.

End Grammar.

(** ** The JSON helpers [getJSON] and [fromJSON]

    [JSON.stringify], [JSON.parse] and [Object.setPrototypeOf] belong to
    the language, not to the repository: the first two are parameters of
    the embedding, the third is modelled on objects that carry their own
    data next to a prototype. *)

Module Json.

(** The values [JSON.parse] produces.  The type of numbers is left open. *)
#[local] Set Warnings "-register-all".
Inductive value (number : Type) : Type :=
| Null
| Bool (b : bool)
| Number (n : number)
| Str (s : string)
| Array (items : list (value number))
| Object (props : list (string * value number)).
Arguments Null {number}.
Arguments Bool {number} b.
Arguments Number {number} n.
Arguments Str {number} s.
Arguments Array {number} items.
Arguments Object {number} props.

(** A JavaScript value as [fromJSON] returns it: a primitive, or an
    object made of its own data and of the prototype it delegates to.
    A prototype is a set of methods by name. *)
Inductive jsvalue (number fn : Type) : Type :=
| Primitive (v : value number)
| Instance (data : value number) (prototype : list (string * fn)).
Arguments Primitive {number fn} v.
Arguments Instance {number fn} data prototype.

(** First binding of a name in a property list. *)
Fixpoint assoc {V : Type} (name : string) (props : list (string * V)) : option V :=
  match props with
  | [] => None
  | (k, v) :: props' => if String.eqb k name then Some v else assoc name props'
  end.

(** The own data properties of a value. *)
Definition own_properties {number} (v : value number) : list (string * value number) :=
  match v with
  | Object props => props
  | _ => []
  end.

(** [o[name]]: an own property, else what the prototype provides. *)
Definition get {number fn} (o : jsvalue number fn) (name : string)
  : option (value number + fn) :=
  match o with
  | Primitive _ => None
  | Instance data prototype =>
      match assoc name (own_properties data) with
      | Some v => Some (inl v)
      | None => option_map inr (assoc name prototype)
      end
  end.

(** [Object.setPrototypeOf(o, proto)]: a [TypeError] on [null], nothing
    to do on another primitive, the prototype replaced on an object. *)
Definition Object_setPrototypeOf {number fn}
    (o : value number) (proto : list (string * fn))
  : Completion (jsvalue number fn) :=
  match o with
  | Null => Throw (Error "TypeError")
  | Bool _ | Number _ | Str _ => Normal (Primitive o)
  | Array _ | Object _ => Normal (Instance o proto)
  end.

Section Helpers.
Variables number fn : Type.
Variable JSON_stringify : value number -> string.
Variable JSON_parse : string -> Completion (value number).

(** A value that JSON represents: [JSON.parse] gives it back from its
    [JSON.stringify] text. *)
Definition JSON_representable (v : value number) : Prop :=
  JSON_parse (JSON_stringify v) = Normal v.

Definition getJSON (obj : value number) : string := JSON_stringify obj.

Definition fromJSON (proto : list (string * fn)) (json : string)
  : Completion (jsvalue number fn) :=
  match JSON_parse json with
  | Normal NewObject => Object_setPrototypeOf NewObject proto
  | Throw e => Throw e
  end.

End Helpers.

End Json.

(** A JSON codec on texts without white space, with integers for numbers
    and the two escapes of strings that [JSON.stringify] cannot avoid. *)
Module JsonText.
Import Json.

Definition dquote : ascii := "034"%char.
Definition backslash : ascii := "092"%char.

Fixpoint escape (s : string) : string :=
  match s with
  | EmptyString => EmptyString
  | String c s' =>
      if Ascii.eqb c dquote || Ascii.eqb c backslash
      then String backslash (String c (escape s'))
      else String c (escape s')
  end.

Definition quote (s : string) : string :=
  String dquote (escape s +:+ String dquote EmptyString).

Definition print_number (n : Z) : string :=
  DecimalString.NilZero.string_of_int (Z.to_int n).

Fixpoint stringify (v : value Z) : string :=
  match v with
  | Null => "null"
  | Bool true => "true"
  | Bool false => "false"
  | Number n => print_number n
  | Str s => quote s
  | Array items => "[" +:+ join "," (map stringify items) +:+ "]"
  | Object props =>
      "{" +:+ join "," (map (fun p => quote (fst p) +:+ ":" +:+ stringify (snd p)) props)
      +:+ "}"
  end.

(** Reading: the closing quote ends a string, a backslash keeps the
    character after it. *)
Fixpoint read_string (s : string) : option (string * string) :=
  match s with
  | EmptyString => None
  | String c s' =>
      if Ascii.eqb c dquote then Some (EmptyString, s')
      else if Ascii.eqb c backslash then
        match s' with
        | EmptyString => None
        | String c' s'' =>
            match read_string s'' with
            | Some (r, rest) => Some (String c' r, rest)
            | None => None
            end
        end
      else
        match read_string s' with
        | Some (r, rest) => Some (String c r, rest)
        | None => None
        end
  end.

Definition is_digit (c : ascii) : bool :=
  let n := Ascii.nat_of_ascii c in ((48 <=? n) && (n <=? 57))%nat.

Fixpoint span_digits (s : string) : string * string :=
  match s with
  | EmptyString => (EmptyString, EmptyString)
  | String c s' =>
      if is_digit c
      then let (d, rest) := span_digits s' in (String c d, rest)
      else (EmptyString, s)
  end.

Definition read_number (s : string) : option (Z * string) :=
  let (sign, body) :=
    match s with
    | String "-" s' => ("-", s')
    | _ => ("", s)
    end in
  let (digits, rest) := span_digits body in
  match digits with
  | EmptyString => None
  | _ =>
      match DecimalString.NilZero.int_of_string (sign +:+ digits) with
      | Some i => Some (Z.of_int i, rest)
      | None => None
      end
  end.

(** Reading a keyword. *)
Fixpoint read_literal (lit : string) (s : string) : option string :=
  match lit with
  | EmptyString => Some s
  | String c lit' =>
      match s with
      | String c' s' => if Ascii.eqb c c' then read_literal lit' s' else None
      | EmptyString => None
      end
  end.

Fixpoint read_value (fuel : nat) (s : string) : option (value Z * string) :=
  match fuel with
  | O => None
  | S fuel' =>
      match s with
      | EmptyString => None
      | String c s' =>
          if Ascii.eqb c "n" then option_map (pair Null) (read_literal "null" s)
          else if Ascii.eqb c "t" then option_map (pair (Bool true)) (read_literal "true" s)
          else if Ascii.eqb c "f" then option_map (pair (Bool false)) (read_literal "false" s)
          else if Ascii.eqb c dquote then
            match read_string s' with
            | Some (r, rest) => Some (Str r, rest)
            | None => None
            end
          else if Ascii.eqb c "[" then
            match s' with
            | String "]" rest => Some (Array [], rest)
            | _ =>
                match read_items fuel' s' with
                | Some (items, rest) => Some (Array items, rest)
                | None => None
                end
            end
          else if Ascii.eqb c "{" then
            match s' with
            | String "}" rest => Some (Object [], rest)
            | _ =>
                match read_props fuel' s' with
                | Some (props, rest) => Some (Object props, rest)
                | None => None
                end
            end
          else
            match read_number s with
            | Some (n, rest) => Some (Number n, rest)
            | None => None
            end
      end
  end

with read_items (fuel : nat) (s : string) : option (list (value Z) * string) :=
  match fuel with
  | O => None
  | S fuel' =>
      match read_value fuel' s with
      | Some (v, String "," rest) =>
          match read_items fuel' rest with
          | Some (items, rest') => Some (v :: items, rest')
          | None => None
          end
      | Some (v, String "]" rest) => Some ([v], rest)
      | _ => None
      end
  end

with read_props (fuel : nat) (s : string)
  : option (list (string * value Z) * string) :=
  match fuel with
  | O => None
  | S fuel' =>
      match s with
      | String c s' =>
          if Ascii.eqb c dquote then
            match read_string s' with
            | Some (k, String ":" s'') =>
                match read_value fuel' s'' with
                | Some (v, String "," rest) =>
                    match read_props fuel' rest with
                    | Some (props, rest') => Some ((k, v) :: props, rest')
                    | None => None
                    end
                | Some (v, String "}" rest) => Some ([(k, v)], rest)
                | _ => None
                end
            | _ => None
            end
          else None
      | EmptyString => None
      end
  end.

(** The whole text must be one value; anything else is a [SyntaxError]. *)
Definition parse (s : string) : Completion (value Z) :=
  match read_value (S (String.length s)) s with
  | Some (v, EmptyString) => Normal v
  | _ => Throw (Error "SyntaxError")
  end.

(** What a text starts with: not with a digit (so that a number before it
    ends there), or with a character of a given kind. *)
Definition nondigit (s : string) : Prop :=
  match s with
  | EmptyString => True
  | String c _ => is_digit c = false
  end.

Definition leads (s : string) (P : ascii -> Prop) : Prop :=
  match s with
  | EmptyString => False
  | String c _ => P c
  end.

Definition opens_value (c : ascii) : Prop :=
  c <> "]"%char /\ c <> "}"%char.

(** The fuel that reading back a printed value takes. *)
Fixpoint need (v : value Z) : nat :=
  match v with
  | Array items => S (fold_right (fun x acc => S (need x + acc)) O items)
  | Object props => S (fold_right (fun p acc => S (need (snd p) + acc)) O props)
  | _ => 1
  end.

(** A method for a prototype, as a function of the receiver's data: the
    area of an object that has a width and a height. *)
Definition rectangle_getArea (this : value Z) : option Z :=
  match assoc "width" (own_properties this), assoc "height" (own_properties this) with
  | Some (Number w), Some (Number h) => Some (w * h)
  | _, _ => None
  end.

End JsonText.

(** ** Sessions: the calls a user can make, in any order

    A call is made on the facade or on a builder the user holds; the user
    catches what it throws and goes on with the heap as the call left it. *)

Module Session.
Import CurrentBuilder Grammar.

Inductive Call : Type :=
| FacadeFragment (k : Fragment) (value : string)
| FacadeCombine (selector1 : ref) (combinator : string) (selector2 : ref)
| MethodFragment (this : ref) (k : Fragment) (value : string)
| MethodStringify (this : ref)
| MethodCombine (this selector1 : ref) (combinator : string) (selector2 : ref).

Definition perform (c : Call) (h : Heap) : Heap :=
  match c with
  | FacadeFragment k v => snd (seed k v h)
  | FacadeCombine s1 c s2 => snd (cssSelectorBuilder.combine s1 c s2 h)
  | MethodFragment r k v => snd (send r (append k v) h)
  | MethodStringify r => snd (call r stringify h)
  | MethodCombine r s1 c s2 => snd (combine r s1 c s2 h)
  end.

Fixpoint session (cs : list Call) (h : Heap) : Heap :=
  match cs with
  | [] => h
  | c :: cs' => session cs' (perform c h)
  end.

End Session.

(** ** [Rectangle]

    Numbers and their product belong to the language and are parameters.
    [getArea] is an arrow function: it closes over the arguments of
    [Rectangle], not over the fields of the object. *)

Module Shapes.

Section Rectangle.
Variable number : Type.
Variable times : number -> number -> number.






End Rectangle.

End Shapes.

(** * Properties *)

(** ** The examples of the source's documentation *)

Section Examples.
Import CurrentBuilder Grammar.

Example scenario_A :
  fst (build FId "main" [(FClass, "container"); (FClass, "editable")] [])
  = Normal "#main.container.editable".
Proof. reflexivity. Qed.

Example scenario_B :
  fst (build FElement "a" [(FAttr, "href$=.png"); (FPseudoClass, "focus")] [])
  = Normal "a[href$=.png]:focus".
Proof. reflexivity. Qed.

Example nested_combine :
  fst ((a <- build_ref FElement "div"
               [(FId, "main"); (FClass, "container"); (FClass, "draggable")] ;;
        b <- build_ref FElement "table" [(FId, "data")] ;;
        c <- build_ref FElement "tr" [(FPseudoClass, "nth-of-type(even)")] ;;
        d <- build_ref FElement "td" [(FPseudoClass, "nth-of-type(even)")] ;;
        cd <- cssSelectorBuilder.combine c " " d ;;
        bcd <- cssSelectorBuilder.combine b "~" cd ;;
        r <- cssSelectorBuilder.combine a "+" bcd ;;
        call r stringify) [])
  = Normal "div#main.container.draggable + table#data ~ tr:nth-of-type(even)   td:nth-of-type(even)".
Proof. reflexivity. Qed.

End Examples.

(** ** Arrays *)

Section Arrays.

Lemma string_app_nil_r (s : string) : s +:+ "" = s.
Proof.
  induction s as [|c s IH]; [reflexivity |].
  change (String c (s +:+ "") = String c s). now rewrite IH.
Qed.

Lemma string_app_assoc (a b c : string) : (a +:+ b) +:+ c = a +:+ (b +:+ c).
Proof.
  induction a as [|x a IH]; [reflexivity |].
  change (String x ((a +:+ b) +:+ c) = String x (a +:+ (b +:+ c))).
  now rewrite IH.
Qed.

Lemma join_nil : join "" [] = "".
Proof. reflexivity. Qed.

Lemma join_cons (x : string) (a : list string) :
  join "" (x :: a) = x +:+ join "" a.
Proof.
  unfold join. destruct a as [|y a].
  - change (x = x +:+ ""). now rewrite string_app_nil_r.
  - reflexivity.
Qed.

Lemma join_singleton (x : string) : join "" [x] = x.
Proof. reflexivity. Qed.

Lemma join_app (a b : list string) :
  join "" (a ++ b) = join "" a +:+ join "" b.
Proof.
  induction a as [|x a IH].
  - reflexivity.
  - rewrite <- app_comm_cons, !join_cons, IH. now rewrite string_app_assoc.
Qed.

Lemma join_push (a : list string) (x : string) :
  join "" (push a x) = join "" a +:+ x.
Proof. unfold push. now rewrite join_app, join_singleton. Qed.

Lemma indexOf_from_range (a : list string) (x : string) (i : Z) :
  indexOf_from a x i = -1 \/ i <= indexOf_from a x i.
Proof.
  revert i. induction a as [|y a IH]; intros i; simpl.
  - now left.
  - destruct (String.eqb y x); [right; lia |].
    destruct (IH (i + 1)) as [E | E]; [now left | right; lia].
Qed.

Lemma indexOf_from_found (a : list string) (x : string) (i : Z) :
  0 <= i -> ((indexOf_from a x i >? -1) = true <-> In x a).
Proof.
  revert i. induction a as [|y a IH]; intros i Hi; simpl.
  - split; [intros H; discriminate | intros []].
  - destruct (String.eqb_spec y x) as [-> | Hne].
    + split; [now left | intros _; apply Z.gtb_lt; lia].
    + rewrite IH by lia. split; [now right | intros [E | E]; [congruence | exact E]].
Qed.

Lemma indexOf_found (a : list string) (x : string) :
  (indexOf a x >? -1) = true <-> In x a.
Proof. apply indexOf_from_found. lia. Qed.

Lemma indexOf_absent (a : list string) (x : string) :
  (indexOf a x >? -1) = false <-> ~ In x a.
Proof.
  destruct (indexOf_found a x) as [H1 H2].
  destruct (indexOf a x >? -1) eqn:E.
  - split; [discriminate | intros H; exfalso; apply H; now apply H1].
  - split; [intros _ H; specialize (H2 H); discriminate | reflexivity].
Qed.

End Arrays.

(** ** Calls through references *)

Section Heap.
Import CurrentBuilder.

Lemma call_lookup {A} (h : Heap) (r : ref) (b : t) (m : Method A) :
  h !! r = Some b ->
  call r m h = (fst (m b), <[r := snd (m b)]> h).
Proof. intros Hr. unfold call. rewrite Hr. now destruct (m b). Qed.

Lemma lookup_updated (h : Heap) (r : ref) (b b' : t) :
  h !! r = Some b -> <[r := b']> h !! r = Some b'.
Proof. intros Hr. apply list_lookup_insert_eq. eapply lookup_lt_Some, Hr. Qed.

Lemma lookup_other (h : Heap) (r r' : ref) (b' : t) :
  r <> r' -> <[r := b']> h !! r' = h !! r'.
Proof. intros Hne. now apply list_lookup_insert_ne. Qed.

Lemma lookup_new (h : Heap) (b : t) : (h ++ [b]) !! length h = Some b.
Proof. now apply list_lookup_middle. Qed.

Lemma call_stringify (h : Heap) (r : ref) (b : t) :
  h !! r = Some b ->
  call r stringify h = (Normal (join "" (stack b)), <[r := set_stack [] b]> h).
Proof. intros Hr. now rewrite (call_lookup h r b). Qed.

End Heap.

(** ** [stringify] *)

Section Stringify.
Import CurrentBuilder.

(** C7. [stringify()] returns the accumulated parts joined with no
    separator and leaves the builder with no parts, so a second
    [stringify()] on the same builder, with no append in between, returns
    the empty string. *)
Theorem stringify_returns_parts_then_empty (h : Heap) (r : ref) (b : t) :
  h !! r = Some b ->
  call r stringify h = (Normal (join "" (stack b)), <[r := set_stack [] b]> h)
  /\ <[r := set_stack [] b]> h !! r = Some (Build [] (singleStack b) (order b))
  /\ (s1 <- call r stringify ;; s2 <- call r stringify ;; ret (s1, s2)) h
     = (Normal (join "" (stack b), ""), <[r := set_stack [] b]> h).
Proof.
  intros Hr. split; [now apply call_stringify |].
  split; [eapply lookup_updated, Hr |].
  unfold bind. rewrite (call_stringify h r b Hr).
  rewrite (call_stringify _ r (set_stack [] b)) by (eapply lookup_updated, Hr).
  cbn [stack set_stack]. rewrite join_nil, list_insert_insert_eq. reflexivity.
Qed.

Lemma stringify_returns_parts_then_empty_witness :
  call 0%nat stringify [constructor "div" (Some 0) (Some "element")]
  = (Normal "div", [Build [] ["element"] (Some 0)])
  /\ [Build [] ["element"] (Some 0)] !! 0%nat = Some (Build [] ["element"] (Some 0))
  /\ (s1 <- call 0%nat stringify ;; s2 <- call 0%nat stringify ;; ret (s1, s2))
       [constructor "div" (Some 0) (Some "element")]
     = (Normal ("div", ""), [Build [] ["element"] (Some 0)]).
Proof.
  exact (stringify_returns_parts_then_empty
           [constructor "div" (Some 0) (Some "element")] 0%nat
           (constructor "div" (Some 0) (Some "element")) eq_refl).
Defined.

End Stringify.

(** ** The append methods *)

Section Appends.
Import CurrentBuilder Grammar.

Ltac unfold_methods :=
  unfold append, element, id, class, attr, pseudoClass, pseudoElement,
    bind, testUniq, testOrder, stack_push, throw, seen in *;
  cbn [tag rank prefixed singleStack stack order
       set_stack set_singleStack set_order fst snd] in *.

Lemma messages_differ : uniq_message <> order_message.
Proof. discriminate. Qed.

(** What a method guarded by [testUniq] first does (element, id). *)
Lemma append_uniq_first (k : Fragment) (v : string) (b : t) :
  uniq_first k = true ->
  append k v b =
    if seen k b then (Throw (Error uniq_message), b)
    else if js_lt (rank k) (order b)
         then (Throw (Error order_message),
               set_singleStack (push (singleStack b) (tag k)) b)
         else (Normal tt,
               Build (push (stack b) (prefixed k v))
                     (push (singleStack b) (tag k)) (Some (rank k))).
Proof.
  destruct k; try discriminate; intros _; unfold_methods;
    destruct (indexOf (singleStack b) _ >? -1); try reflexivity;
    simpl; destruct (js_lt _ (order b)); reflexivity.
Qed.

(** What an unguarded method does (class, attr, pseudoClass). *)
Lemma append_repeatable (k : Fragment) (v : string) (b : t) :
  once k = false ->
  append k v b =
    if js_lt (rank k) (order b)
    then (Throw (Error order_message), b)
    else (Normal tt,
          Build (push (stack b) (prefixed k v)) (singleStack b) (Some (rank k))).
Proof.
  destruct k; try discriminate; intros _; unfold_methods;
    simpl; destruct (js_lt _ (order b)); reflexivity.
Qed.

(** What [pseudoElement] does: [testOrder] first, then [testUniq]. *)
Lemma append_pseudoElement (v : string) (b : t) :
  append FPseudoElement v b =
    if js_lt 5 (order b) then (Throw (Error order_message), b)
    else if seen FPseudoElement b
         then (Throw (Error uniq_message), set_order (Some 5) b)
         else (Normal tt,
               Build (push (stack b) ("::" +:+ v))
                     (push (singleStack b) "pseudoElement") (Some 5)).
Proof.
  unfold_methods. simpl. destruct (js_lt 5 (order b)); [reflexivity |].
  simpl. destruct (indexOf (singleStack b) _ >? -1); reflexivity.
Qed.

Lemma kind_cases (k : Fragment) :
  uniq_first k = true \/ once k = false \/ k = FPseudoElement.
Proof. destruct k; cbn; auto. Qed.

Lemma seen_In (k : Fragment) (b : t) :
  seen k b = true <-> In (tag k) (singleStack b).
Proof. apply indexOf_found. Qed.

Lemma seen_not_In (k : Fragment) (b : t) :
  seen k b = false <-> ~ In (tag k) (singleStack b).
Proof. apply indexOf_absent. Qed.

Lemma In_push {A} (a : list A) (x y : A) : In y (push a x) <-> In y a \/ x = y.
Proof. unfold push. rewrite in_app_iff. cbn. tauto. Qed.

(** An append attempt changes the fields as follows, thrown or not. *)
Lemma append_fields (k : Fragment) (v : string) (b : t) :
  let b' := snd (append k v b) in
  (singleStack b' = singleStack b
   \/ singleStack b' = push (singleStack b) (tag k) /\ once k = true)
  /\ (order b' = order b \/ order b' = Some (rank k))
  /\ (stack b' = stack b \/ stack b' = push (stack b) (prefixed k v)).
Proof.
  destruct (kind_cases k) as [Hk | [Hk | ->]].
  - rewrite (append_uniq_first k v b Hk).
    assert (once k = true) by (destruct k; try discriminate; reflexivity).
    destruct (seen k b); [cbn; tauto |].
    destruct (js_lt (rank k) (order b)); cbn; tauto.
  - rewrite (append_repeatable k v b Hk).
    destruct (js_lt (rank k) (order b)); cbn; tauto.
  - rewrite append_pseudoElement.
    destruct (js_lt 5 (order b)); [cbn; tauto |].
    destruct (seen FPseudoElement b); cbn; tauto.
Qed.

Lemma seen_append (k k' : Fragment) (v : string) (b : t) :
  seen k b = true -> seen k (snd (append k' v b)) = true.
Proof.
  rewrite !seen_In. intros Hin.
  destruct (append_fields k' v b) as [[-> | [-> _]] _]; [exact Hin |].
  apply In_push. now left.
Qed.

Lemma seen_attempts (k : Fragment) (fs : list (Fragment * string)) (b : t) :
  seen k b = true -> seen k (attempts fs b) = true.
Proof.
  revert b. induction fs as [| [k' v] fs IH]; intros b Hb; cbn [attempts].
  - exact Hb.
  - apply IH. now apply seen_append.
Qed.

Lemma order_ok_append (k : Fragment) (v : string) (b : t) :
  order_ok b -> order_ok (snd (append k v b)).
Proof.
  unfold order_ok. intros Hb.
  destruct (append_fields k v b) as (_ & [-> | ->] & _); [exact Hb |].
  destruct k; cbn; lia.
Qed.

Lemma reachable_order_ok (b : t) : reachable b -> order_ok b.
Proof.
  induction 1 as [k v | s | k v b _ IH | b _ IH | s b _ IH].
  - unfold order_ok, constructor. destruct k; cbn; lia.
  - exact I.
  - now apply order_ok_append.
  - exact IH.
  - exact IH.
Qed.

Lemma reachable_attempts (fs : list (Fragment * string)) (b : t) :
  reachable b -> reachable (attempts fs b).
Proof.
  revert b. induction fs as [| [k v] fs IH]; intros b Hb; cbn [attempts].
  - exact Hb.
  - apply IH. now constructor.
Qed.

(** A recorded kind is rejected by its method, in every reachable state. *)
Lemma append_seen_throws (k : Fragment) (w : string) (b : t) :
  order_ok b -> once k = true -> seen k b = true ->
  fst (append k w b) = Throw (Error uniq_message).
Proof.
  intros Hok Hk Hs.
  destruct (kind_cases k) as [Hu | [Hu | ->]].
  - rewrite (append_uniq_first k w b Hu), Hs. reflexivity.
  - congruence.
  - rewrite append_pseudoElement, Hs.
    assert (js_lt 5 (order b) = false) as ->; [| reflexivity].
    unfold order_ok in Hok. unfold js_lt. destruct (order b); [| reflexivity].
    apply Z.ltb_ge. lia.
Qed.

End Appends.

(** ** Uniqueness and ordering checks *)

Section Checks.
Import CurrentBuilder Grammar.

(** Seeding through the facade records the kind. *)
Lemma seed_records (k : Fragment) (v : string) :
  seen k (constructor (prefixed k v) (Some (rank k)) (Some (tag k))) = true.
Proof. destruct k; reflexivity. Qed.

(** A successful append of a guarded kind records the kind. *)
Lemma append_records (k : Fragment) (v : string) (b : t) :
  once k = true -> fst (append k v b) = Normal tt ->
  seen k (snd (append k v b)) = true.
Proof.
  intros Hk. destruct (kind_cases k) as [Hu | [Hu | ->]].
  - rewrite (append_uniq_first k v b Hu).
    destruct (seen k b); [discriminate |].
    destruct (js_lt (rank k) (order b)); [discriminate |]. intros _.
    apply seen_In. cbn. apply In_push. now right.
  - congruence.
  - rewrite append_pseudoElement.
    destruct (js_lt 5 (order b)); [discriminate |].
    destruct (seen FPseudoElement b); [discriminate |]. intros _.
    apply seen_In. cbn. apply In_push. now right.
Qed.

(** C2. A builder records an element, id or pseudo-element when the
    facade seeds it with one and when the append of one returns; from then
    on the test of [testUniq] finds its tag.  In each case, appending a
    fragment of that kind again throws the duplicate error, whatever
    fragments were appended, or tried, in between. *)
Theorem second_once_fragment_rejected (k : Fragment)
    (between : list (Fragment * string)) (w : string) :
  once k = true ->
  (forall v,
     fst (append k w
            (attempts between
               (constructor (prefixed k v) (Some (rank k)) (Some (tag k)))))
     = Throw (Error uniq_message))
  /\ (forall b v, reachable b -> fst (append k v b) = Normal tt ->
       fst (append k w (attempts between (snd (append k v b))))
       = Throw (Error uniq_message))
  /\ (forall b, reachable b -> seen k b = true ->
       fst (append k w (attempts between b)) = Throw (Error uniq_message)).
Proof.
  intros Hk.
  assert (forall b, reachable b -> seen k b = true ->
            fst (append k w (attempts between b)) = Throw (Error uniq_message))
    as Hseen.
  { intros b Hb Hs. apply append_seen_throws.
    - apply reachable_order_ok. now apply reachable_attempts.
    - exact Hk.
    - now apply seen_attempts. }
  split; [| split].
  - intros v. apply Hseen; [constructor | apply seed_records].
  - intros b v Hb Hret. apply Hseen; [now constructor | now apply append_records].
  - exact Hseen.
Qed.

Lemma second_once_fragment_rejected_witness :
  fst (append FElement "x"
         (attempts [(FId, "main"); (FClass, "c"); (FClass, "d")]
                   (constructor "div" (Some 0) (Some "element"))))
  = Throw (Error uniq_message)
  /\ fst (append FPseudoElement "before"
            (attempts [(FPseudoElement, "w")]
               (snd (append FPseudoElement "after"
                       (constructor ".c" (Some 2) (Some "class"))))))
     = Throw (Error uniq_message).
Proof.
  split.
  - exact (proj1 (second_once_fragment_rejected FElement
                    [(FId, "main"); (FClass, "c"); (FClass, "d")] "x" eq_refl)
                 "div").
  - exact (proj1 (proj2 (second_once_fragment_rejected FPseudoElement
                           [(FPseudoElement, "w")] "before" eq_refl))
                 (constructor ".c" (Some 2) (Some "class")) "after"
                 (reach_seed FClass "c") eq_refl).
Defined.

(** C3, as the code has it.  A fragment whose rank is below the current
    rank is always rejected: with the ordering error, except that an
    element or id already recorded is rejected by the uniqueness test,
    which those two methods run first.  A fragment whose rank is at least
    the current rank (or appended to a builder with no rank yet) never
    throws the ordering error. *)
Theorem lower_rank_rejected_other_ranks_pass_order
    (b : t) (k : Fragment) (v : string) :
  (forall r, order b = Some r -> rank k < r ->
     fst (append k v b)
     = Throw (Error (if uniq_first k && seen k b
                     then uniq_message else order_message)))
  /\ (order b = None \/ (exists r, order b = Some r /\ r <= rank k) ->
      fst (append k v b) <> Throw (Error order_message)).
Proof.
  split.
  - intros r Hr Hlt.
    assert (js_lt (rank k) (order b) = true) as Hjs
      by (rewrite Hr; now apply Z.ltb_lt).
    destruct (kind_cases k) as [Hu | [Hu | ->]].
    + rewrite (append_uniq_first k v b Hu), Hu, Hjs.
      destruct (seen k b); reflexivity.
    + rewrite (append_repeatable k v b Hu), Hjs.
      destruct k; try discriminate; reflexivity.
    + rewrite append_pseudoElement. cbn [rank] in Hjs. rewrite Hjs. reflexivity.
  - intros Hge.
    assert (js_lt (rank k) (order b) = false) as Hjs.
    { destruct Hge as [-> | (r & -> & Hle)]; [reflexivity |].
      now apply Z.ltb_ge. }
    destruct (kind_cases k) as [Hu | [Hu | ->]].
    + rewrite (append_uniq_first k v b Hu), Hjs.
      destruct (seen k b); cbn; [| discriminate].
      intros E. apply messages_differ. congruence.
    + rewrite (append_repeatable k v b Hu), Hjs. discriminate.
    + rewrite append_pseudoElement. cbn [rank] in Hjs. rewrite Hjs.
      destruct (seen FPseudoElement b); cbn; [| discriminate].
      intros E. apply messages_differ. congruence.
Qed.

Lemma lower_rank_rejected_other_ranks_pass_order_witness :
  fst (append FElement "x" (constructor ".c" (Some 2) (Some "class")))
  = Throw (Error order_message)
  /\ fst (append FClass "d" (constructor ".c" (Some 2) (Some "class")))
     <> Throw (Error order_message).
Proof.
  pose proof (lower_rank_rejected_other_ranks_pass_order
                (constructor ".c" (Some 2) (Some "class")) FElement "x") as [H _].
  pose proof (lower_rank_rejected_other_ranks_pass_order
                (constructor ".c" (Some 2) (Some "class")) FClass "d") as [_ H'].
  split.
  - apply (H 2); [reflexivity | cbn; lia].
  - apply H'. right. exists 2. split; [reflexivity | cbn; lia].
Defined.

(** C3 as stated fails: after [element('div').id('main').class('c')] the
    current rank is 2, [id] has rank 1, and [id('x')] throws the duplicate
    error, not the ordering error. *)
Lemma lower_rank_id_raises_duplicate :
  order (attempts [(FId, "main"); (FClass, "c")]
                  (constructor "div" (Some 0) (Some "element"))) = Some 2
  /\ rank FId < 2
  /\ fst (append FId "x"
            (attempts [(FId, "main"); (FClass, "c")]
                      (constructor "div" (Some 0) (Some "element"))))
     = Throw (Error uniq_message)
  /\ fst (append FId "x"
            (attempts [(FId, "main"); (FClass, "c")]
                      (constructor "div" (Some 0) (Some "element"))))
     <> Throw (Error order_message).
Proof. repeat split; try reflexivity; discriminate. Qed.

(** C6, as the code has it.  A rejected duplicate of an element, id or
    pseudo-element throws an error whose message is exactly the one below:
    it reads "more then", and has no final full stop. *)
Theorem duplicate_rejection_message (b : t) (k : Fragment) (w : string) :
  reachable b -> once k = true -> seen k b = true ->
  exists e, fst (append k w b) = Throw e
    /\ message e
       = "Element, id and pseudo-element should not occur more then one time inside the selector".
Proof.
  intros Hb Hk Hs. exists (Error uniq_message). split; [| reflexivity].
  apply append_seen_throws; auto using reachable_order_ok.
Qed.

Lemma duplicate_rejection_message_witness :
  exists e,
    fst (append FId "x" (constructor "#main" (Some 1) (Some "id"))) = Throw e
    /\ message e
       = "Element, id and pseudo-element should not occur more then one time inside the selector".
Proof.
  exact (duplicate_rejection_message
           (constructor "#main" (Some 1) (Some "id")) FId "x"
           (reach_seed FId "main") eq_refl eq_refl).
Defined.

(** C6 as stated fails: the message thrown for a second [element] is not
    the one with "more than" and a final full stop. *)
Lemma duplicate_message_is_not_than :
  fst (append FElement "x" (constructor "div" (Some 0) (Some "element")))
  = Throw (Error "Element, id and pseudo-element should not occur more then one time inside the selector")
  /\ fst (append FElement "x" (constructor "div" (Some 0) (Some "element")))
     <> Throw (Error "Element, id and pseudo-element should not occur more than one time inside the selector.").
Proof. split; [reflexivity | discriminate]. Qed.

(** C8. On a builder whose rank is above 0 and which has not recorded an
    element, [element(v)] throws the ordering error and leaves the parts
    as they were, but the element tag stays recorded, so the next
    [element(w)] throws the duplicate error; the same holds for [id] when
    the rank is above 1. *)
Theorem failed_append_still_recorded (b : t) (r : Z) (v w : string) :
  order b = Some r ->
  (0 < r -> seen FElement b = false ->
     fst (element v b) = Throw (Error order_message)
     /\ stack (snd (element v b)) = stack b
     /\ seen FElement (snd (element v b)) = true
     /\ fst (element w (snd (element v b))) = Throw (Error uniq_message))
  /\ (1 < r -> seen FId b = false ->
     fst (id v b) = Throw (Error order_message)
     /\ stack (snd (id v b)) = stack b
     /\ seen FId (snd (id v b)) = true
     /\ fst (id w (snd (id v b))) = Throw (Error uniq_message)).
Proof.
  intros Hr.
  assert (forall k, uniq_first k = true -> rank k < r -> seen k b = false ->
            fst (append k v b) = Throw (Error order_message)
            /\ stack (snd (append k v b)) = stack b
            /\ seen k (snd (append k v b)) = true
            /\ fst (append k w (snd (append k v b))) = Throw (Error uniq_message))
    as Hgen.
  { intros k Hu Hlt Hs.
    assert (js_lt (rank k) (order b) = true) as Hjs
      by (rewrite Hr; now apply Z.ltb_lt).
    assert (seen k (set_singleStack (push (singleStack b) (tag k)) b) = true) as Hs'
      by (apply seen_In; cbn; apply In_push; now right).
    rewrite (append_uniq_first k v b Hu), Hs, Hjs. cbn [fst snd].
    repeat split; try assumption.
    now rewrite (append_uniq_first k w _ Hu), Hs'. }
  split; intros Hlt Hs.
  - exact (Hgen FElement eq_refl Hlt Hs).
  - exact (Hgen FId eq_refl Hlt Hs).
Qed.

Lemma failed_append_still_recorded_witness :
  (fst (element "a" (constructor ".c" (Some 2) (Some "class")))
   = Throw (Error order_message)
   /\ stack (snd (element "a" (constructor ".c" (Some 2) (Some "class")))) = [".c"]
   /\ seen FElement (snd (element "a" (constructor ".c" (Some 2) (Some "class")))) = true
   /\ fst (element "b" (snd (element "a" (constructor ".c" (Some 2) (Some "class")))))
      = Throw (Error uniq_message))
  /\ (fst (id "a" (constructor ".c" (Some 2) (Some "class")))
      = Throw (Error order_message)
      /\ stack (snd (id "a" (constructor ".c" (Some 2) (Some "class")))) = [".c"]
      /\ seen FId (snd (id "a" (constructor ".c" (Some 2) (Some "class")))) = true
      /\ fst (id "b" (snd (id "a" (constructor ".c" (Some 2) (Some "class")))))
         = Throw (Error uniq_message)).
Proof.
  destruct (failed_append_still_recorded
              (constructor ".c" (Some 2) (Some "class")) 2 "a" "b" eq_refl)
    as [He Hi].
  split; [apply He | apply Hi]; solve [lia | reflexivity].
Defined.

End Checks.

(** ** Well-ordered chains *)

Section Chains.
Import CurrentBuilder Grammar.

Lemma Fragment_eqb_eq (k k' : Fragment) : Fragment_eqb k k' = true <-> k = k'.
Proof.
  unfold Fragment_eqb. rewrite Z.eqb_eq.
  split; [| now intros ->]. destruct k, k'; cbn; intros H; congruence || lia.
Qed.

Lemma tag_inj (k k' : Fragment) : tag k = tag k' -> k = k'.
Proof. destruct k, k'; cbn; intros H; try reflexivity; discriminate. Qed.

Lemma occurrences_head (k : Fragment) (v : string) (fs : list (Fragment * string)) :
  occurrences k ((k, v) :: fs) = S (occurrences k fs).
Proof.
  cbn [occurrences]. now rewrite (proj2 (Fragment_eqb_eq k k) eq_refl).
Qed.

Lemma occurrences_tail (k k' : Fragment) (v : string) (fs : list (Fragment * string)) :
  (occurrences k fs <= occurrences k ((k', v) :: fs))%nat.
Proof. cbn [occurrences]. lia. Qed.

Lemma seen_once_rule_iff (fs : list (Fragment * string)) :
  seen_once_rule fs = true <->
  forall k, once k = true -> (occurrences k fs <= 1)%nat.
Proof.
  unfold seen_once_rule. rewrite !andb_true_iff, !Nat.leb_le. split.
  - intros [[He Hi] Hp] k Hk. destruct k; try discriminate; assumption.
  - intros H. repeat split; apply H; reflexivity.
Qed.

(** An append that passes both checks. *)
Lemma append_passes (k : Fragment) (v : string) (b : t) :
  js_lt (rank k) (order b) = false ->
  (once k = true -> seen k b = false) ->
  append k v b =
    (Normal tt,
     Build (push (stack b) (prefixed k v))
           (if once k then push (singleStack b) (tag k) else singleStack b)
           (Some (rank k))).
Proof.
  intros Hjs Hs. destruct (kind_cases k) as [Hu | [Hu | ->]].
  - assert (once k = true) as Hk by (destruct k; try discriminate; reflexivity).
    rewrite (append_uniq_first k v b Hu), (Hs Hk), Hjs, Hk. reflexivity.
  - rewrite (append_repeatable k v b Hu), Hjs, Hu. reflexivity.
  - rewrite append_pseudoElement. cbn [rank] in Hjs.
    rewrite Hjs, (Hs eq_refl). reflexivity.
Qed.

(** From a state whose rank is [r], a sequence that continues the order
    and introduces each guarded kind at most once, none of them recorded
    yet, is appended without a throw and adds its fragments in order. *)
Lemma appends_pass (fs : list (Fragment * string)) :
  forall (b : t) (r : Z),
    order b = Some r ->
    ranks_from r fs = true ->
    seen_once_rule fs = true ->
    (forall k, once k = true -> (0 < occurrences k fs)%nat -> seen k b = false) ->
    fst (appends fs b) = Normal tt
    /\ stack (snd (appends fs b))
       = stack b ++ map (fun f => prefixed (fst f) (snd f)) fs.
Proof.
  induction fs as [| [k v] fs IH]; intros b r Hr Hranks Hrule Hfresh.
  - cbn. now rewrite app_nil_r.
  - cbn [ranks_from] in Hranks. apply andb_true_iff in Hranks as [Hle Hranks].
    apply Z.leb_le in Hle.
    pose proof (proj1 (seen_once_rule_iff _) Hrule) as Hocc.
    assert (js_lt (rank k) (order b) = false) as Hjs
      by (rewrite Hr; now apply Z.ltb_ge).
    assert (once k = true -> seen k b = false) as Hk.
    { intros Hk. apply Hfresh; [exact Hk |]. rewrite occurrences_head. lia. }
    cbn [appends]. unfold bind. rewrite (append_passes k v b Hjs Hk).
    set (b1 := Build _ _ _).
    destruct (IH b1 (rank k)) as [Hfst Hstack].
    + reflexivity.
    + exact Hranks.
    + apply seen_once_rule_iff. intros k' Hk'.
      specialize (Hocc k' Hk'). pose proof (occurrences_tail k' k v fs). lia.
    + intros k' Hk' Hpos. apply seen_not_In. subst b1. cbn [singleStack].
      assert (~ In (tag k') (singleStack b)) as Hnot.
      { apply seen_not_In, Hfresh; [exact Hk' |].
        pose proof (occurrences_tail k' k v fs). lia. }
      destruct (once k) eqn:Eo; [| exact Hnot].
      rewrite In_push. intros [Hin | Heq]; [now apply Hnot |].
      apply tag_inj in Heq. subst k'.
      specialize (Hocc k Eo). rewrite occurrences_head in Hocc. lia.
    + split; [exact Hfst |].
      rewrite Hstack. subst b1. cbn [stack map fst snd]. unfold push.
      now rewrite <- app_assoc.
Qed.

(** A chain of calls on a reference is the chain of appends on the
    object it denotes. *)
Lemma chain_call (fs : list (Fragment * string)) :
  forall (h : Heap) (r : ref) (b : t),
    h !! r = Some b ->
    chain r fs h
    = (match fst (appends fs b) with
       | Normal _ => Normal r
       | Throw e => Throw e
       end, match fs with
            | [] => h
            | _ :: _ => <[r := snd (appends fs b)]> h
            end).
Proof.
  induction fs as [| [k v] fs IH]; intros h r b Hr.
  - reflexivity.
  - cbn [chain appends]. unfold send, bind at 1 2.
    rewrite (call_lookup h r b _ Hr). unfold bind.
    destruct (append k v b) as [[[] | e] b1]; cbn [fst snd]; [| reflexivity].
    unfold ret. rewrite (IH _ r b1) by (eapply lookup_updated, Hr).
    destruct fs as [| f fs]; [reflexivity |].
    now rewrite list_insert_insert_eq.
Qed.

Lemma seed_new (k : Fragment) (v : string) (h : Heap) :
  seed k v h
  = (Normal (length h),
     h ++ [constructor (prefixed k v) (Some (rank k)) (Some (tag k))]).
Proof. destruct k; reflexivity. Qed.

Lemma seeded_fields (k : Fragment) (v : string) :
  constructor (prefixed k v) (Some (rank k)) (Some (tag k))
  = Build [prefixed k v] [tag k] (Some (rank k)).
Proof. destruct k; reflexivity. Qed.

(** C1. A chain that starts at the facade and appends fragments with
    ranks that never go down and with element, id and pseudo-element at
    most once never throws, and its [stringify()] returns the fragments'
    prefixed values concatenated in append order with no separator. *)
Theorem stringify_of_ordered_chain (h : Heap) (k0 : Fragment) (v0 : string)
    (fs : list (Fragment * string)) :
  ranks_nondecreasing ((k0, v0) :: fs) = true ->
  seen_once_rule ((k0, v0) :: fs) = true ->
  fst (build k0 v0 fs h) = Normal (rendered ((k0, v0) :: fs)).
Proof.
  intros Hranks Hrule. cbn [ranks_nondecreasing] in Hranks.
  pose proof (proj1 (seen_once_rule_iff _) Hrule) as Hocc.
  set (b0 := constructor (prefixed k0 v0) (Some (rank k0)) (Some (tag k0))).
  assert (b0 = Build [prefixed k0 v0] [tag k0] (Some (rank k0))) as Eb0
    by apply seeded_fields.
  destruct (appends_pass fs b0 (rank k0)) as [Hfst Hstack].
  - now rewrite Eb0.
  - exact Hranks.
  - apply seen_once_rule_iff. intros k Hk.
    specialize (Hocc k Hk). pose proof (occurrences_tail k k0 v0 fs). lia.
  - intros k Hk Hpos. apply seen_not_In.
    assert (singleStack b0 = [tag k0]) as -> by now rewrite Eb0.
    intros [Heq | []]. apply tag_inj in Heq. subst k0.
    specialize (Hocc k Hk). rewrite occurrences_head in Hocc. lia.
  - unfold build, build_ref, bind. rewrite seed_new. fold b0.
    rewrite (chain_call fs _ (length h) b0 (lookup_new h b0)), Hfst.
    assert (stack b0 = [prefixed k0 v0]) as Hb0 by now rewrite Eb0.
    unfold rendered. cbn [map fst snd].
    destruct fs as [| f fs].
    + rewrite (call_stringify _ _ b0 (lookup_new h b0)). cbn [fst].
      now rewrite Hb0.
    + rewrite (call_stringify _ _ (snd (appends (f :: fs) b0)))
        by (eapply lookup_updated, lookup_new).
      cbn [fst]. now rewrite Hstack, Hb0.
Qed.

Lemma stringify_of_ordered_chain_witness :
  fst (build FElement "div"
         [(FId, "main"); (FClass, "container"); (FClass, "draggable");
          (FAttr, "lang"); (FPseudoClass, "hover"); (FPseudoElement, "after")]
         [])
  = Normal "div#main.container.draggable[lang]:hover::after".
Proof.
  exact (stringify_of_ordered_chain [] FElement "div"
           [(FId, "main"); (FClass, "container"); (FClass, "draggable");
            (FAttr, "lang"); (FPseudoClass, "hover"); (FPseudoElement, "after")]
           eq_refl eq_refl).
Defined.

End Chains.

(** ** Reachable states are an invariant of the heap *)

Section HeapInvariant.
Import CurrentBuilder Grammar.

Lemma call_reachable {A} (r : ref) (m : Method A) (h : Heap) :
  (forall b, reachable b -> reachable (snd (m b))) ->
  Forall reachable h -> Forall reachable (snd (call r m h)).
Proof.
  intros Hm Hh. unfold call. destruct (h !! r) as [b |] eqn:Hr; [| exact Hh].
  destruct (m b) as [c b'] eqn:Hmb. cbn [snd].
  apply Forall_insert; [exact Hh |].
  change b' with (snd (c, b')). rewrite <- Hmb. apply Hm.
  eapply Forall_lookup_1; eassumption.
Qed.

Lemma seed_reachable (k : Fragment) (v : string) (h : Heap) :
  Forall reachable h -> Forall reachable (snd (seed k v h)).
Proof.
  intros Hh. rewrite seed_new. cbn [snd]. apply Forall_app. split; [exact Hh |].
  repeat constructor.
Qed.

Lemma send_append_reachable (r : ref) (k : Fragment) (v : string) (h : Heap) :
  Forall reachable h -> Forall reachable (snd (send r (append k v) h)).
Proof.
  intros Hh. unfold send, bind.
  pose proof (call_reachable r (append k v) h (reach_append k v) Hh) as H.
  destruct (call r (append k v) h) as [[[] | e] h']; exact H.
Qed.

Lemma stringify_reachable (r : ref) (h : Heap) :
  Forall reachable h -> Forall reachable (snd (call r stringify h)).
Proof. apply call_reachable. exact reach_stringify. Qed.

Lemma reads_reachable {X} (A B : ref) (k : string -> string -> Prog X) (h : Heap) :
  (forall s1 s2 h', Forall reachable h' -> Forall reachable (snd (k s1 s2 h'))) ->
  Forall reachable h ->
  Forall reachable
    (snd ((s1 <- call A stringify ;; s2 <- call B stringify ;; k s1 s2) h)).
Proof.
  intros Hk Hh. unfold bind.
  pose proof (stringify_reachable A h Hh) as H1.
  destruct (call A stringify h) as [[s1 | e] h1]; [| exact H1].
  pose proof (stringify_reachable B h1 H1) as H2.
  destruct (call B stringify h1) as [[s2 | e] h2]; [| exact H2].
  now apply Hk.
Qed.

Lemma facade_combine_reachable (A B : ref) (c : string) (h : Heap) :
  Forall reachable h -> Forall reachable (snd (cssSelectorBuilder.combine A c B h)).
Proof.
  apply reads_reachable. intros s1 s2 h' Hh'. cbn [new snd].
  apply Forall_app. split; [exact Hh' |]. repeat constructor.
Qed.

Lemma instance_combine_reachable (X A B : ref) (c : string) (h : Heap) :
  Forall reachable h -> Forall reachable (snd (combine X A c B h)).
Proof.
  apply reads_reachable. intros s1 s2 h' Hh'. unfold send, bind.
  pose proof (call_reachable X (stack_push ((s1 +:+ combinatorValue c) +:+ s2)) h'
                (reach_push _) Hh') as H.
  destruct (call X _ h') as [[[] | e] h'']; exact H.
Qed.

End HeapInvariant.

(** ** [combine] *)

Section Combine.
Import CurrentBuilder Grammar.

Variables (h : Heap) (A B : ref) (bA bB : t).
Hypothesis HA : h !! A = Some bA.
Hypothesis HB : h !! B = Some bB.

Lemma second_operand_lookup :
  <[A := set_stack [] bA]> h !! B = Some (second_operand A B bA bB).
Proof.
  unfold second_operand. destruct (decide (A = B)) as [<- | Hne].
  - eapply lookup_updated, HA.
  - now rewrite lookup_other.
Qed.

Lemma second_operand_string :
  join "" (stack (second_operand A B bA bB)) = second_read A B bB.
Proof. unfold second_operand, second_read. now destruct (decide (A = B)). Qed.

Lemma operands_stringified {X} (k : string -> string -> Prog X) :
  (s1 <- call A stringify ;; s2 <- call B stringify ;; k s1 s2) h
  = k (first_read bA) (second_read A B bB) (after_reads h A B bA bB).
Proof.
  unfold bind. rewrite (call_stringify h A bA HA).
  rewrite (call_stringify _ B (second_operand A B bA bB) second_operand_lookup).
  now rewrite second_operand_string.
Qed.

Lemma after_reads_length : length (after_reads h A B bA bB) = length h.
Proof. unfold after_reads. now rewrite !length_insert. Qed.

Lemma after_reads_second :
  after_reads h A B bA bB !! B = Some (set_stack [] (second_operand A B bA bB)).
Proof. unfold after_reads. eapply lookup_updated, second_operand_lookup. Qed.

Lemma after_reads_first :
  exists b, after_reads h A B bA bB !! A = Some b /\ stack b = [].
Proof.
  destruct (decide (A = B)) as [E | Hne].
  - exists (set_stack [] (second_operand A B bA bB)). split; [| reflexivity].
    rewrite E at 1. exact after_reads_second.
  - exists (set_stack [] bA). split; [| reflexivity].
    unfold after_reads. rewrite lookup_other by congruence.
    eapply lookup_updated, HA.
Qed.

Lemma after_reads_other (X : ref) :
  X <> A -> X <> B -> after_reads h A B bA bB !! X = h !! X.
Proof.
  intros HXA HXB. unfold after_reads. now rewrite !lookup_other by congruence.
Qed.

(** The object through which an instance-level [combine] is called, as
    the final push finds it. *)
Lemma after_reads_receiver (X : ref) (bX : t) :
  h !! X = Some bX ->
  exists b, after_reads h A B bA bB !! X = Some b
    /\ stack b = (if decide (X = A \/ X = B) then [] else stack bX).
Proof.
  intros HX. destruct (decide (X = B)) as [-> | HXB].
  - exists (set_stack [] (second_operand A B bA bB)).
    split; [exact after_reads_second |].
    destruct (decide _) as [_ | Hn]; [reflexivity | exfalso; apply Hn; now right].
  - destruct (decide (X = A)) as [-> | HXA].
    + destruct after_reads_first as (b & Hb & Hs). exists b. split; [exact Hb |].
      destruct (decide _) as [_ | Hn]; [exact Hs | exfalso; apply Hn; now left].
    + exists bX. split; [now rewrite after_reads_other |].
      destruct (decide _) as [[E | E] | _]; [congruence | congruence | reflexivity].
Qed.

Lemma facade_combine_run (c : string) :
  cssSelectorBuilder.combine A c B h
  = (Normal (length h),
     after_reads h A B bA bB
     ++ [Build [(first_read bA +:+ combinatorValue c) +:+ second_read A B bB]
               [] None]).
Proof.
  unfold cssSelectorBuilder.combine. rewrite operands_stringified.
  unfold new. now rewrite after_reads_length.
Qed.

Lemma instance_combine_run (X : ref) (bX : t) (c : string) :
  h !! X = Some bX ->
  exists b,
    after_reads h A B bA bB !! X = Some b
    /\ stack b = (if decide (X = A \/ X = B) then [] else stack bX)
    /\ combine X A c B h
       = (Normal X,
          <[X := set_stack
                   (push (stack b)
                      ((first_read bA +:+ combinatorValue c) +:+ second_read A B bB))
                   b]> (after_reads h A B bA bB)).
Proof.
  intros HX. destruct (after_reads_receiver X bX HX) as (b & Hb & Hs).
  exists b. repeat split; try assumption.
  unfold combine. rewrite operands_stringified.
  unfold send, bind. now rewrite (call_lookup _ X b _ Hb).
Qed.

Lemma facade_combine_stringify (c : string) :
  fst ((r <- cssSelectorBuilder.combine A c B ;; call r stringify) h)
  = Normal ((first_read bA +:+ combinatorValue c) +:+ second_read A B bB).
Proof.
  unfold bind. rewrite facade_combine_run.
  erewrite call_stringify
    by (rewrite <- after_reads_length; apply lookup_new).
  reflexivity.
Qed.

Lemma instance_combine_stringify (X : ref) (bX : t) (c : string) :
  h !! X = Some bX ->
  fst ((r <- combine X A c B ;; call r stringify) h)
  = Normal ((if decide (X = A \/ X = B) then "" else join "" (stack bX))
            +:+ ((first_read bA +:+ combinatorValue c) +:+ second_read A B bB)).
Proof.
  intros HX. destruct (instance_combine_run X bX c HX) as (b & Hb & Hs & Hrun).
  unfold bind. rewrite Hrun.
  erewrite call_stringify by (eapply lookup_updated, Hb).
  cbn [fst stack set_stack]. rewrite join_push, Hs.
  now destruct (decide _).
Qed.

End Combine.

Section CombineProperties.
Import CurrentBuilder Grammar.

(** C4. [combine(A, c, B).stringify()] is what
    [A.stringify() + sep + B.stringify()] evaluates to in the same state,
    where [sep] is [c] between two spaces, or nothing at all when [c] is
    empty: the string [A.stringify()] returns (the parts of [A]), then
    [sep], then the string [B.stringify()] returns next (the parts of [B],
    or nothing when [B] is the very object [A], which the first read has
    emptied).  Called on a builder [X], [combine] appends that same string
    to the parts [X] has at that point. *)
Theorem combine_stringify_spacing (h : Heap) (A B : ref) (c : string) (bA bB : t) :
  h !! A = Some bA -> h !! B = Some bB ->
  fst ((r <- cssSelectorBuilder.combine A c B ;; call r stringify) h)
  = fst ((s1 <- call A stringify ;;
          s2 <- call B stringify ;;
          ret ((s1 +:+ (if String.eqb c "" then "" else " " +:+ c +:+ " ")) +:+ s2)) h)
  /\ fst ((r <- cssSelectorBuilder.combine A c B ;; call r stringify) h)
     = Normal ((join "" (stack bA)
                +:+ (if String.eqb c "" then "" else " " +:+ c +:+ " "))
               +:+ (if decide (A = B) then "" else join "" (stack bB)))
  /\ (c = "" ->
      fst ((r <- cssSelectorBuilder.combine A c B ;; call r stringify) h)
      = Normal (join "" (stack bA)
                +:+ (if decide (A = B) then "" else join "" (stack bB))))
  /\ (forall (X : ref) (bX : t), h !! X = Some bX ->
      fst ((r <- combine X A c B ;; call r stringify) h)
      = Normal ((if decide (X = A \/ X = B) then "" else join "" (stack bX))
                +:+ ((join "" (stack bA)
                      +:+ (if String.eqb c "" then "" else " " +:+ c +:+ " "))
                     +:+ (if decide (A = B) then "" else join "" (stack bB))))).
Proof.
  intros HA HB.
  assert (combinatorValue c = if String.eqb c "" then "" else " " +:+ c +:+ " ")
    as Hsep.
  { unfold combinatorValue. destruct (String.eqb_spec c ""); congruence. }
  split; [| split; [| split]].
  - rewrite (facade_combine_stringify h A B bA bB HA HB c), Hsep.
    now rewrite (operands_stringified h A B bA bB HA HB).
  - rewrite (facade_combine_stringify h A B bA bB HA HB c), Hsep. reflexivity.
  - intros ->. rewrite (facade_combine_stringify h A B bA bB HA HB "").
    change (combinatorValue "") with "". now rewrite string_app_nil_r.
  - intros X bX HX.
    rewrite (instance_combine_stringify h A B bA bB HA HB X bX c HX), Hsep.
    reflexivity.
Qed.

Lemma combine_stringify_spacing_witness :
  fst ((r <- cssSelectorBuilder.combine 0%nat "+" 1%nat ;; call r stringify)
         [Build ["div"; "#main"] ["element"; "id"] (Some 1);
          Build ["p"; ".x"] ["element"] (Some 2)])
  = Normal "div#main + p.x"
  /\ fst ((r <- cssSelectorBuilder.combine 0%nat "" 1%nat ;; call r stringify)
         [Build ["div"; "#main"] ["element"; "id"] (Some 1);
          Build ["p"; ".x"] ["element"] (Some 2)])
     = Normal "div#mainp.x".
Proof.
  split.
  - exact (proj1 (proj2 (combine_stringify_spacing
             [Build ["div"; "#main"] ["element"; "id"] (Some 1);
              Build ["p"; ".x"] ["element"] (Some 2)] 0%nat 1%nat "+"
             (Build ["div"; "#main"] ["element"; "id"] (Some 1))
             (Build ["p"; ".x"] ["element"] (Some 2)) eq_refl eq_refl))).
  - exact (proj1 (proj2 (proj2 (combine_stringify_spacing
             [Build ["div"; "#main"] ["element"; "id"] (Some 1);
              Build ["p"; ".x"] ["element"] (Some 2)] 0%nat 1%nat ""
             (Build ["div"; "#main"] ["element"; "id"] (Some 1))
             (Build ["p"; ".x"] ["element"] (Some 2)) eq_refl eq_refl))) eq_refl).
Defined.

(** C5, as the code has it.  With a single space as the combinator, the
    two selectors are separated by three spaces: the token and the space
    put on each side of it. *)
Theorem combine_space_gives_three_spaces (h : Heap) (A B : ref) (bA bB : t) :
  h !! A = Some bA -> h !! B = Some bB ->
  fst ((r <- cssSelectorBuilder.combine A " " B ;; call r stringify) h)
  = Normal ((join "" (stack bA) +:+ "   ")
            +:+ (if decide (A = B) then "" else join "" (stack bB))).
Proof.
  intros HA HB.
  now rewrite (facade_combine_stringify h A B bA bB HA HB " ").
Qed.

Lemma combine_space_gives_three_spaces_witness :
  fst ((r <- cssSelectorBuilder.combine 0%nat " " 1%nat ;; call r stringify)
         [Build ["tr"] ["element"] (Some 0); Build ["td"] ["element"] (Some 0)])
  = Normal "tr   td".
Proof.
  exact (combine_space_gives_three_spaces
           [Build ["tr"] ["element"] (Some 0); Build ["td"] ["element"] (Some 0)]
           0%nat 1%nat (Build ["tr"] ["element"] (Some 0))
           (Build ["td"] ["element"] (Some 0)) eq_refl eq_refl).
Defined.

(** C5 as stated fails: [combine(element('tr'), ' ', element('td'))] does
    not serialize to the two selectors with two spaces in between. *)
Lemma combine_space_is_not_two_spaces :
  fst ((a <- cssSelectorBuilder.element "tr" ;;
        b <- cssSelectorBuilder.element "td" ;;
        r <- cssSelectorBuilder.combine a " " b ;;
        call r stringify) [])
  = Normal (("tr" +:+ "   ") +:+ "td")
  /\ fst ((a <- cssSelectorBuilder.element "tr" ;;
           b <- cssSelectorBuilder.element "td" ;;
           r <- cssSelectorBuilder.combine a " " b ;;
           call r stringify) [])
     <> Normal (("tr" +:+ "  ") +:+ "td").
Proof. split; [reflexivity | discriminate]. Qed.

(** C9, as the code has it.  After the facade's [combine(A, c, B)], and
    after [X.combine(A, c, B)] on a builder [X] that is neither [A] nor
    [B], a [stringify()] on [A] or on [B] returns the empty string. *)
Theorem combine_consumes_operands (h : Heap) (A B : ref) (c : string) (bA bB : t) :
  h !! A = Some bA -> h !! B = Some bB ->
  fst ((cssSelectorBuilder.combine A c B ;; call A stringify) h) = Normal ""
  /\ fst ((cssSelectorBuilder.combine A c B ;; call B stringify) h) = Normal ""
  /\ (forall (X : ref) (bX : t), h !! X = Some bX -> X <> A -> X <> B ->
      fst ((combine X A c B ;; call A stringify) h) = Normal ""
      /\ fst ((combine X A c B ;; call B stringify) h) = Normal "").
Proof.
  intros HA HB.
  destruct (after_reads_first h A B bA bB HA HB) as (a & Ha & Hsa).
  pose proof (after_reads_second h A B bA bB HA HB) as Hb.
  split; [| split].
  - unfold bind. rewrite (facade_combine_run h A B bA bB HA HB c).
    rewrite (call_stringify _ A a) by (now apply lookup_app_l_Some).
    cbn [fst]. now rewrite Hsa.
  - unfold bind. rewrite (facade_combine_run h A B bA bB HA HB c).
    rewrite (call_stringify _ B _ (lookup_app_l_Some _ _ _ _ Hb)).
    reflexivity.
  - intros X bX HX HXA HXB.
    destruct (instance_combine_run h A B bA bB HA HB X bX c HX)
      as (x & Hx & _ & Hrun).
    unfold bind. rewrite Hrun. split.
    + rewrite (call_stringify _ A a) by (now rewrite lookup_other).
      cbn [fst]. now rewrite Hsa.
    + rewrite (call_stringify _ B (set_stack [] (second_operand A B bA bB)))
        by (now rewrite lookup_other).
      reflexivity.
Qed.

Lemma combine_consumes_operands_witness :
  fst ((cssSelectorBuilder.combine 0%nat "+" 1%nat ;; call 0%nat stringify)
         [Build ["a"] ["element"] (Some 0); Build ["b"] ["element"] (Some 0);
          Build [".x"] ["class"] (Some 2)]) = Normal ""
  /\ fst ((cssSelectorBuilder.combine 0%nat "+" 1%nat ;; call 1%nat stringify)
         [Build ["a"] ["element"] (Some 0); Build ["b"] ["element"] (Some 0);
          Build [".x"] ["class"] (Some 2)]) = Normal ""
  /\ fst ((combine 2%nat 0%nat "+" 1%nat ;; call 0%nat stringify)
         [Build ["a"] ["element"] (Some 0); Build ["b"] ["element"] (Some 0);
          Build [".x"] ["class"] (Some 2)]) = Normal ""
  /\ fst ((combine 2%nat 0%nat "+" 1%nat ;; call 1%nat stringify)
         [Build ["a"] ["element"] (Some 0); Build ["b"] ["element"] (Some 0);
          Build [".x"] ["class"] (Some 2)]) = Normal "".
Proof.
  destruct (combine_consumes_operands
              [Build ["a"] ["element"] (Some 0); Build ["b"] ["element"] (Some 0);
               Build [".x"] ["class"] (Some 2)] 0%nat 1%nat "+"
              (Build ["a"] ["element"] (Some 0)) (Build ["b"] ["element"] (Some 0))
              eq_refl eq_refl) as (H1 & H2 & H3).
  split; [exact H1 | split; [exact H2 |]].
  apply (H3 2%nat (Build [".x"] ["class"] (Some 2)) eq_refl); discriminate.
Defined.

(** C9 as stated fails for the instance-level [combine] called on one of
    its own operands: [a.combine(a, '+', b)] pushes the joined string onto
    [a] after reading it, so a following [a.stringify()] returns that
    string and not the empty one. *)
Lemma combine_on_operand_keeps_joined_string :
  fst ((a <- cssSelectorBuilder.element "a" ;;
        b <- cssSelectorBuilder.element "b" ;;
        combine a a "+" b ;;
        call a stringify) [])
  = Normal "a + b"
  /\ fst ((a <- cssSelectorBuilder.element "a" ;;
           b <- cssSelectorBuilder.element "b" ;;
           combine a a "+" b ;;
           call a stringify) [])
     <> Normal "".
Proof. split; [reflexivity | discriminate]. Qed.

End CombineProperties.

(** ** A JSON codec: every value is read back from its text *)

Section JsonCodec.
Import Json JsonText.

Lemma append_cons (c : ascii) (s t : string) : String c s +:+ t = String c (s +:+ t).
Proof. reflexivity. Qed.

Lemma append_nil_l (t : string) : "" +:+ t = t.
Proof. reflexivity. Qed.

Lemma read_string_escape (s rest : string) :
  read_string (escape s +:+ String dquote rest) = Some (s, rest).
Proof.
  induction s as [| c s IH].
  - reflexivity.
  - cbn [escape]. destruct (Ascii.eqb c dquote || Ascii.eqb c backslash) eqn:E.
    + rewrite !append_cons. cbn [read_string].
      change (Ascii.eqb backslash dquote) with false.
      change (Ascii.eqb backslash backslash) with true. cbn iota.
      now rewrite IH.
    + apply orb_false_iff in E as [E1 E2].
      rewrite append_cons. cbn [read_string]. now rewrite E1, E2, IH.
Qed.

Lemma read_string_quote (s rest : string) :
  exists t, quote s +:+ rest = String dquote t /\ read_string t = Some (s, rest).
Proof.
  exists (escape s +:+ String dquote rest). split.
  - unfold quote. rewrite append_cons, string_app_assoc. reflexivity.
  - apply read_string_escape.
Qed.

Lemma span_digits_uint (d : Decimal.uint) (rest : string) :
  nondigit rest ->
  span_digits (NilEmpty.string_of_uint d +:+ rest) = (NilEmpty.string_of_uint d, rest).
Proof.
  intros Hrest. induction d; cbn [NilEmpty.string_of_uint];
    rewrite ?append_cons, ?append_nil_l; cbn [span_digits];
    try (change (is_digit _) with true; cbn iota; now rewrite IHd).
  destruct rest as [| c rest]; [reflexivity |].
  cbn in Hrest. cbn [span_digits]. now rewrite Hrest.
Qed.

Lemma uint_first (d : Decimal.uint) :
  d <> Decimal.Nil ->
  exists c s, NilEmpty.string_of_uint d = String c s /\ is_digit c = true.
Proof.
  intros Hd. destruct d; try congruence; cbn [NilEmpty.string_of_uint]; eauto.
Qed.

Lemma NilZero_string_of_uint (d : Decimal.uint) :
  d <> Decimal.Nil -> NilZero.string_of_uint d = NilEmpty.string_of_uint d.
Proof. destruct d; [congruence | reflexivity ..]. Qed.

Lemma to_int_cases (n : Z) :
  exists d, d <> Decimal.Nil /\ (Z.to_int n = Decimal.Pos d \/ Z.to_int n = Decimal.Neg d).
Proof.
  destruct n as [| p | p]; cbn.
  - exists (Decimal.D0 Decimal.Nil). split; [discriminate | now left].
  - exists (Pos.to_uint p). split; [apply DecimalPos.Unsigned.to_uint_nonnil | now left].
  - exists (Pos.to_uint p). split; [apply DecimalPos.Unsigned.to_uint_nonnil | now right].
Qed.

Lemma read_number_print (n : Z) (rest : string) :
  nondigit rest ->
  read_number (print_number n +:+ rest) = Some (n, rest).
Proof.
  intros Hrest. unfold print_number.
  pose proof (DecimalZ.of_to n) as Hof.
  destruct (to_int_cases n) as (d & Hd & [E | E]).
  - assert (NilZero.int_of_string (NilZero.string_of_int (Z.to_int n)) = Some (Z.to_int n)) as Hisi.
    { apply NilZero.isi; rewrite E; congruence. }
    rewrite E in *. cbn [NilZero.string_of_int] in *.
    rewrite (NilZero_string_of_uint d Hd) in *.
    destruct (uint_first d Hd) as (c & s & Es & Hc).
    unfold read_number.
    assert (match NilEmpty.string_of_uint d +:+ rest with
            | String "-" s' => ("-", s')
            | _ => ("", NilEmpty.string_of_uint d +:+ rest)
            end = ("", NilEmpty.string_of_uint d +:+ rest)) as ->.
    { rewrite Es, append_cons.
      destruct c as [[] [] [] [] [] [] [] []]; try reflexivity; discriminate. }
    rewrite (span_digits_uint d rest Hrest).
    rewrite append_nil_l, Hisi, Hof, Es. reflexivity.
  - assert (NilZero.int_of_string (NilZero.string_of_int (Z.to_int n)) = Some (Z.to_int n)) as Hisi.
    { apply NilZero.isi; rewrite E; congruence. }
    rewrite E in *. cbn [NilZero.string_of_int] in *.
    rewrite (NilZero_string_of_uint d Hd) in *.
    destruct (uint_first d Hd) as (c & s & Es & Hc).
    unfold read_number. rewrite append_cons.
    rewrite (span_digits_uint d rest Hrest).
    change ("-" +:+ NilEmpty.string_of_uint d) with (String "-" (NilEmpty.string_of_uint d)).
    rewrite Hisi, Hof, Es. reflexivity.
Qed.

Lemma value_nested_ind (P : value Z -> Prop) :
  P Null -> (forall b, P (Bool b)) -> (forall n, P (Number n)) ->
  (forall s, P (Str s)) ->
  (forall items, Forall P items -> P (Array items)) ->
  (forall props, Forall (fun p => P (snd p)) props -> P (Object props)) ->
  forall v, P v.
Proof.
  intros HNull HBool HNumber HStr HArray HObject.
  fix IH 1. intros [| b | n | s | items | props].
  - exact HNull.
  - apply HBool.
  - apply HNumber.
  - apply HStr.
  - apply HArray. induction items as [| x items IHitems]; constructor.
    + apply IH.
    + exact IHitems.
  - apply HObject. induction props as [| [k x] props IHprops]; constructor.
    + apply IH.
    + exact IHprops.
Qed.

Lemma stringify_leads (v : value Z) (rest : string) :
  leads (stringify v +:+ rest) opens_value.
Proof.
  destruct v as [| [] | n | s | items | props]; cbn [stringify];
    rewrite ?append_cons; try (cbn; split; discriminate).
  unfold print_number.
  destruct (to_int_cases n) as (d & Hd & [E | E]); rewrite E;
    cbn [NilZero.string_of_int]; rewrite (NilZero_string_of_uint d Hd).
  - destruct (uint_first d Hd) as (c & s & -> & Hc). rewrite append_cons. cbn.
    split; intros ->; discriminate.
  - rewrite append_cons. cbn. split; discriminate.
Qed.

Lemma number_leads (n : Z) (rest : string) :
  leads (print_number n +:+ rest) (fun c => c = "-"%char \/ is_digit c = true).
Proof.
  unfold print_number.
  destruct (to_int_cases n) as (d & Hd & [E | E]); rewrite E;
    cbn [NilZero.string_of_int]; rewrite (NilZero_string_of_uint d Hd).
  - destruct (uint_first d Hd) as (c & s & -> & Hc). rewrite append_cons. cbn.
    now right.
  - rewrite append_cons. cbn. now left.
Qed.

Lemma read_value_number (fuel : nat) (n : Z) (rest : string) :
  nondigit rest ->
  read_value (S fuel) (print_number n +:+ rest) = Some (Number n, rest).
Proof.
  intros Hrest. pose proof (number_leads n rest) as Hlead.
  pose proof (read_number_print n rest Hrest) as Hread.
  destruct (print_number n +:+ rest) as [| c s]; [contradiction |].
  cbn [leads] in Hlead. cbn [read_value]. rewrite Hread.
  destruct Hlead as [-> | Hc]; [reflexivity |].
  destruct c as [[] [] [] [] [] [] [] []]; try discriminate Hc; reflexivity.
Qed.

Lemma read_literal_app (lit rest : string) :
  read_literal lit (lit +:+ rest) = Some rest.
Proof.
  induction lit as [| c lit IH]; [reflexivity |].
  rewrite append_cons. cbn [read_literal]. now rewrite Ascii.eqb_refl.
Qed.

Lemma join_one (sep x : string) : join sep [x] = x.
Proof. reflexivity. Qed.

Lemma join_comma_cons (x : string) (a : list string) :
  a <> [] -> join "," (x :: a) = x +:+ "," +:+ join "," a.
Proof. destruct a; [congruence | reflexivity]. Qed.

Lemma map_nonempty {X Y} (f : X -> Y) (l : list X) : l <> [] -> map f l <> [].
Proof. destruct l; [congruence | discriminate]. Qed.

Section Lists.
Variable P : value Z -> Prop.
Hypothesis HP : forall v, P v ->
  forall fuel rest, (need v <= fuel)%nat -> nondigit rest ->
    read_value fuel (stringify v +:+ rest) = Some (v, rest).

Lemma read_items_stringify (items : list (value Z)) :
  Forall P items -> items <> [] ->
  forall fuel rest,
    (fold_right (fun x acc => S (need x + acc)) O items <= fuel)%nat ->
    read_items fuel (join "," (map stringify items) +:+ String "]" rest)
    = Some (items, rest).
Proof.
  induction 1 as [| x items Hx Hitems IH]; [congruence |].
  intros _ fuel rest Hfuel. cbn [fold_right] in Hfuel.
  destruct fuel as [| fuel]; [lia |]. cbn [read_items].
  destruct (decide (items = [])) as [-> | Hne].
  - cbn [map]. rewrite join_one.
    rewrite (HP x Hx fuel (String "]" rest)); [reflexivity | lia | reflexivity].
  - cbn [map]. rewrite (join_comma_cons _ _ (map_nonempty _ _ Hne)).
    rewrite !string_app_assoc, append_cons, append_nil_l.
    rewrite (HP x Hx fuel); [| lia | reflexivity].
    rewrite (IH Hne); [reflexivity | lia].
Qed.

Lemma read_props_stringify (props : list (string * value Z)) :
  Forall (fun p => P (snd p)) props -> props <> [] ->
  forall fuel rest,
    (fold_right (fun p acc => S (need (snd p) + acc)) O props <= fuel)%nat ->
    read_props fuel
      (join "," (map (fun p => quote (fst p) +:+ ":" +:+ stringify (snd p)) props)
       +:+ String "}" rest)
    = Some (props, rest).
Proof.
  induction 1 as [| [k x] props Hx Hprops IH]; [congruence |].
  intros _ fuel rest Hfuel. cbn [fold_right snd] in Hfuel.
  destruct fuel as [| fuel]; [lia |]. cbn [snd] in Hx.
  destruct (decide (props = [])) as [-> | Hne].
  - cbn [map fst snd]. rewrite join_one, !string_app_assoc.
    destruct (read_string_quote k (":" +:+ stringify x +:+ String "}" rest))
      as (t & -> & Ht).
    cbn [read_props]. change (Ascii.eqb dquote dquote) with true. cbn iota.
    rewrite Ht, append_cons, append_nil_l.
    rewrite (HP x Hx fuel (String "}" rest)); [reflexivity | lia | reflexivity].
  - cbn [map fst snd]. rewrite (join_comma_cons _ _ (map_nonempty _ _ Hne)).
    rewrite !string_app_assoc.
    destruct (read_string_quote k
                (":" +:+ stringify x +:+ "," +:+
                 join "," (map (fun p => quote (fst p) +:+ ":" +:+ stringify (snd p))
                             props) +:+ String "}" rest))
      as (t & -> & Ht).
    cbn [read_props]. change (Ascii.eqb dquote dquote) with true. cbn iota.
    rewrite Ht, !append_cons, !append_nil_l.
    rewrite (HP x Hx fuel); [| lia | reflexivity].
    rewrite (IH Hne); [reflexivity | lia].
Qed.

End Lists.

Lemma read_value_string (fuel : nat) (s : string) :
  read_value (S fuel) (String dquote s)
  = match read_string s with
    | Some (r, rest) => Some (Str r, rest)
    | None => None
    end.
Proof. reflexivity. Qed.

Lemma read_value_array (fuel : nat) (s : string) :
  read_value (S fuel) (String "[" s)
  = match s with
    | String "]" rest => Some (Array [], rest)
    | _ =>
        match read_items fuel s with
        | Some (items, rest) => Some (Array items, rest)
        | None => None
        end
    end.
Proof. reflexivity. Qed.

Lemma read_value_object (fuel : nat) (s : string) :
  read_value (S fuel) (String "{" s)
  = match s with
    | String "}" rest => Some (Object [], rest)
    | _ =>
        match read_props fuel s with
        | Some (props, rest) => Some (Object props, rest)
        | None => None
        end
    end.
Proof. reflexivity. Qed.

Lemma not_closing_bracket (s : string) (X : Type) (a : string -> X) (b : X) :
  leads s opens_value ->
  match s with String "]" r => a r | _ => b end = b.
Proof.
  destruct s as [| c s]; [contradiction |]. intros [Hc _].
  destruct c as [[] [] [] [] [] [] [] []]; try reflexivity; congruence.
Qed.

Lemma not_closing_brace (s : string) (X : Type) (a : string -> X) (b : X) :
  leads s (fun c => c = dquote) ->
  match s with String "}" r => a r | _ => b end = b.
Proof.
  destruct s as [| c s]; [contradiction |]. cbn. intros ->. reflexivity.
Qed.

Lemma read_value_stringify (v : value Z) :
  forall fuel rest, (need v <= fuel)%nat -> nondigit rest ->
    read_value fuel (stringify v +:+ rest) = Some (v, rest).
Proof.
  induction v as [| b | n | s | items IH | props IH] using value_nested_ind;
    intros fuel rest Hfuel Hrest;
    (destruct fuel as [| fuel]; [cbn in Hfuel; lia |]).
  - reflexivity.
  - destruct b; reflexivity.
  - now apply read_value_number.
  - cbn [stringify].
    destruct (read_string_quote s rest) as (t & -> & Ht).
    now rewrite read_value_string, Ht.
  - cbn [stringify need] in *.
    rewrite !string_app_assoc, !append_cons, !append_nil_l, read_value_array.
    destruct (decide (items = [])) as [-> | Hne]; [reflexivity |].
    rewrite (read_items_stringify _ (fun v H => H) items IH Hne) by lia.
    apply (not_closing_bracket _ _ (fun r => Some (Array [], r))).
    destruct items as [| x items]; [congruence |]. cbn [map].
    destruct (decide (items = [])) as [-> | Hne'].
    + rewrite join_one. apply stringify_leads.
    + rewrite (join_comma_cons _ _ (map_nonempty _ _ Hne')), string_app_assoc.
      apply stringify_leads.
  - cbn [stringify need] in *.
    rewrite !string_app_assoc, !append_cons, !append_nil_l, read_value_object.
    destruct (decide (props = [])) as [-> | Hne]; [reflexivity |].
    rewrite (read_props_stringify _ (fun v H => H) props IH Hne) by lia.
    apply (not_closing_brace _ _ (fun r => Some (Object [], r))).
    destruct props as [| [k x] props]; [congruence |]. cbn [map fst snd].
    destruct (decide (props = [])) as [-> | Hne'].
    + rewrite join_one. unfold quote. now rewrite !append_cons.
    + rewrite (join_comma_cons _ _ (map_nonempty _ _ Hne')).
      unfold quote. now rewrite !append_cons.
Qed.

Lemma length_append (s t : string) :
  String.length (s +:+ t) = (String.length s + String.length t)%nat.
Proof.
  induction s as [| c s IH]; [reflexivity |].
  rewrite append_cons. cbn [String.length]. now rewrite IH.
Qed.

Lemma need_items_le_length {X} (f : X -> value Z) (g : X -> string) (l : list X) :
  Forall (fun x => need (f x) <= String.length (g x))%nat l ->
  (fold_right (fun x acc => S (need (f x) + acc)) O l
   <= String.length (join "," (map g l)) + 1)%nat.
Proof.
  induction 1 as [| x l Hx Hl IH]; [cbn; lia |].
  cbn [fold_right map]. destruct (decide (l = [])) as [-> | Hne].
  - rewrite join_one. cbn. lia.
  - rewrite (join_comma_cons _ _ (map_nonempty _ _ Hne)), !length_append.
    cbn [String.length]. lia.
Qed.

Lemma need_le_length (v : value Z) : (need v <= String.length (stringify v))%nat.
Proof.
  induction v as [| b | n | s | items IH | props IH] using value_nested_ind.
  - cbn. lia.
  - destruct b; cbn; lia.
  - pose proof (number_leads n "") as Hlead. rewrite string_app_nil_r in Hlead.
    cbn [stringify need]. destruct (print_number n); [contradiction | cbn; lia].
  - cbn. lia.
  - cbn [stringify need]. rewrite !length_append. cbn [String.length].
    pose proof (need_items_le_length (fun x => x) stringify items IH). lia.
  - cbn [stringify need]. rewrite !length_append. cbn [String.length].
    pose proof (need_items_le_length snd
                  (fun p => quote (fst p) +:+ ":" +:+ stringify (snd p)) props) as H.
    cbn beta in H. lapply H; [lia |].
    eapply Forall_impl; [exact IH |].
    intros [k x] Hx. cbn [fst snd] in *. rewrite !length_append. lia.
Qed.

(** Every value is given back by [parse] from its [stringify] text. *)
Lemma parse_stringify (v : value Z) : parse (stringify v) = Normal v.
Proof.
  unfold parse.
  pose proof (read_value_stringify v (S (String.length (stringify v))) "") as H.
  rewrite string_app_nil_r in H. rewrite H; [reflexivity | | exact I].
  pose proof (need_le_length v). lia.
Qed.

(** With this codec, JSON represents every value. *)
Lemma codec_represents_every_value (v : value Z) :
  JSON_representable Z stringify parse v.
Proof. apply parse_stringify. Qed.

End JsonCodec.

(** ** [fromJSON] after [getJSON] *)

Section RoundTrip.
Import Json.

Variables number fn : Type.
Variable JSON_stringify : value number -> string.
Variable JSON_parse : string -> Completion (value number).

(** C10. Let [d] be a plain data object that JSON represents, that is,
    one that [JSON.parse] gives back from its [JSON.stringify] text.  Then
    [fromJSON(proto, getJSON(d))] returns an object with the data of [d]:
    every field of [d] is read back from it, and every other name is
    answered by [proto], whose methods are thus attached to the result
    without being part of the text. *)
Theorem fromJSON_getJSON_roundtrip
    (proto : list (string * fn)) (props : list (string * value number)) :
  JSON_representable number JSON_stringify JSON_parse (Object props) ->
  fromJSON number fn JSON_parse proto (getJSON number JSON_stringify (Object props))
  = Normal (Instance (Object props) proto)
  /\ (forall name v, assoc name props = Some v ->
        get (Instance (Object props) proto) name = Some (inl v))
  /\ (forall name, assoc name props = None ->
        get (Instance (Object props) proto) name
        = option_map inr (assoc name proto)).
Proof.
  intros Hrep. split; [| split].
  - unfold fromJSON, getJSON. rewrite Hrep. reflexivity.
  - intros name v Hv. cbn. now rewrite Hv.
  - intros name Hnone. cbn. now rewrite Hnone.
Qed.

End RoundTrip.

Section RoundTripInstance.
Import Json.

Lemma fromJSON_getJSON_roundtrip_witness :
  fromJSON Z (value Z -> option Z) JsonText.parse [("getArea", JsonText.rectangle_getArea)]
    (getJSON Z JsonText.stringify (Object [("width", Number 10); ("height", Number 20)]))
  = Normal (Instance (Object [("width", Number 10); ("height", Number 20)])
                     [("getArea", JsonText.rectangle_getArea)])
  /\ (forall name v,
        assoc name [("width", Number 10); ("height", Number 20)] = Some v ->
        get (Instance (Object [("width", Number 10); ("height", Number 20)])
                      [("getArea", JsonText.rectangle_getArea)]) name
        = Some (inl v))
  /\ (forall name,
        assoc name [("width", Number 10); ("height", Number 20)] = None ->
        get (Instance (Object [("width", Number 10); ("height", Number 20)])
                      [("getArea", JsonText.rectangle_getArea)]) name
        = option_map inr (assoc name [("getArea", JsonText.rectangle_getArea)])).
Proof.
  exact (fromJSON_getJSON_roundtrip Z (value Z -> option Z)
           JsonText.stringify JsonText.parse
           [("getArea", JsonText.rectangle_getArea)]
           [("width", Number 10); ("height", Number 20)] eq_refl).
Defined.

End RoundTripInstance.

(** * Further properties of the builder *)

(** ** Which chains are accepted *)

Section Acceptance.
Import CurrentBuilder Grammar.

(** An append returns exactly when both of its checks pass. *)
Lemma append_returns_iff (k : Fragment) (v : string) (b : t) :
  fst (append k v b) = Normal tt
  <-> js_lt (rank k) (order b) = false /\ (once k = true -> seen k b = false).
Proof.
  split.
  - destruct (kind_cases k) as [Hu | [Hu | ->]].
    + rewrite (append_uniq_first k v b Hu).
      destruct (seen k b); [discriminate |].
      destruct (js_lt (rank k) (order b)); [discriminate |]. auto.
    + rewrite (append_repeatable k v b Hu).
      destruct (js_lt (rank k) (order b)); [discriminate |].
      intros _. split; [reflexivity | congruence].
    + rewrite append_pseudoElement. cbn [rank].
      destruct (js_lt 5 (order b)); [discriminate |].
      destruct (seen FPseudoElement b); [discriminate |]. auto.
  - intros [Hjs Hs]. now rewrite (append_passes k v b Hjs Hs).
Qed.

Lemma append_throws_or_returns (k : Fragment) (v : string) (b : t) :
  fst (append k v b) = Normal tt
  \/ fst (append k v b) = Throw (Error uniq_message)
  \/ fst (append k v b) = Throw (Error order_message).
Proof.
  destruct (kind_cases k) as [Hu | [Hu | ->]].
  - rewrite (append_uniq_first k v b Hu).
    destruct (seen k b); [auto |]. destruct (js_lt (rank k) (order b)); auto.
  - rewrite (append_repeatable k v b Hu).
    destruct (js_lt (rank k) (order b)); auto.
  - rewrite append_pseudoElement.
    destruct (js_lt 5 (order b)); [auto |]. destruct (seen FPseudoElement b); auto.
Qed.

Lemma seen_push_other (k k' : Fragment) (b : t) (st : list string) (o : option Z) :
  k <> k' ->
  seen k' (Build st (push (singleStack b) (tag k)) o) = seen k' b.
Proof.
  intros Hne. destruct (seen k' b) eqn:E.
  - apply seen_In. cbn. apply In_push. left. now apply seen_In.
  - apply seen_not_In. cbn. rewrite In_push. intros [H | H].
    + now apply seen_not_In in E.
    + apply tag_inj in H. congruence.
Qed.

Lemma Fragment_cases (k k' : Fragment) :
  k = k' \/ k <> k' /\ Fragment_eqb k k' = false.
Proof.
  destruct (Fragment_eqb k k') eqn:E.
  - left. now apply Fragment_eqb_eq.
  - right. split; [| reflexivity]. intros H. apply Fragment_eqb_eq in H. congruence.
Qed.

Lemma appends_returns_rules (fs : list (Fragment * string)) :
  forall (b : t) (r : Z),
    order b = Some r ->
    fst (appends fs b) = Normal tt ->
    ranks_from r fs = true
    /\ seen_once_rule fs = true
    /\ (forall k, once k = true -> seen k b = true -> occurrences k fs = O).
Proof.
  induction fs as [| [k v] fs IH]; intros b r Hr Hret.
  - repeat split.
  - cbn [appends] in Hret. unfold bind in Hret.
    destruct (append k v b) as [[[] | e] b1] eqn:Happ; [| discriminate].
    assert (fst (append k v b) = Normal tt) as Hfst by now rewrite Happ.
    apply append_returns_iff in Hfst as [Hjs Hs].
    rewrite (append_passes k v b Hjs Hs) in Happ. injection Happ as <-.
    rewrite Hr in Hjs. cbn [js_lt] in Hjs. apply Z.ltb_ge in Hjs.
    destruct (IH _ (rank k) (eq_refl : order (Build _ _ (Some (rank k))) = Some (rank k)) Hret)
      as (Hranks & Hrule & Hfresh).
    pose proof (proj1 (seen_once_rule_iff _) Hrule) as Hocc.
    assert (once k = true -> occurrences k fs = O) as Hk.
    { intros Hk. apply Hfresh; [exact Hk |]. apply seen_In. cbn. rewrite Hk.
      apply In_push. now right. }
    split; [| split].
    + cbn [ranks_from]. apply andb_true_iff. split; [now apply Z.leb_le | exact Hranks].
    + apply seen_once_rule_iff. intros k' Hk'.
      destruct (Fragment_cases k' k) as [-> | [Hne E]].
      * rewrite occurrences_head, (Hk Hk'). lia.
      * cbn [occurrences]. rewrite E. specialize (Hocc k' Hk'). lia.
    + intros k' Hk' Hseen.
      assert (k' <> k) as Hne.
      { intros ->. specialize (Hs Hk'). congruence. }
      destruct (Fragment_cases k' k) as [-> | [_ E]]; [congruence |].
      cbn [occurrences]. rewrite E. cbn. apply Hfresh; [exact Hk' |].
      apply seen_In. cbn [singleStack]. apply seen_In in Hseen.
      destruct (once k); [apply In_push; now left | exact Hseen].
Qed.

Lemma appends_returns_iff (fs : list (Fragment * string)) (b : t) (r : Z) :
  order b = Some r ->
  fst (appends fs b) = Normal tt
  <-> ranks_from r fs = true
      /\ seen_once_rule fs = true
      /\ (forall k, once k = true -> seen k b = true -> occurrences k fs = O).
Proof.
  intros Hr. split; [now apply appends_returns_rules |].
  intros (Hranks & Hrule & Hfresh).
  apply (appends_pass fs b r Hr Hranks Hrule).
  intros k Hk Hpos. destruct (seen k b) eqn:E; [| reflexivity].
  specialize (Hfresh k Hk E). lia.
Qed.

(** What a chain started at the facade evaluates to. *)
Lemma build_run (h : Heap) (k0 : Fragment) (v0 : string) (fs : list (Fragment * string)) :
  fst (build k0 v0 fs h)
  = match fst (appends fs (Build [prefixed k0 v0] [tag k0] (Some (rank k0)))) with
    | Normal _ =>
        Normal (join "" (stack (snd (appends fs
                  (Build [prefixed k0 v0] [tag k0] (Some (rank k0)))))))
    | Throw e => Throw e
    end.
Proof.
  unfold build, build_ref, bind. rewrite seed_new, seeded_fields.
  set (b0 := Build _ _ _).
  rewrite (chain_call fs _ (length h) b0 (lookup_new h b0)).
  destruct (fst (appends fs b0)) as [[] | e] eqn:E; [| reflexivity].
  destruct fs as [| f fs].
  - now rewrite (call_stringify _ _ b0 (lookup_new h b0)).
  - erewrite call_stringify by (eapply lookup_updated, lookup_new). reflexivity.
Qed.

Lemma seeded_rules (k0 : Fragment) (v0 : string) (fs : list (Fragment * string)) :
  seen_once_rule ((k0, v0) :: fs) = true
  <-> seen_once_rule fs = true
      /\ (forall k, once k = true ->
            seen k (Build [prefixed k0 v0] [tag k0] (Some (rank k0))) = true ->
            occurrences k fs = O).
Proof.
  rewrite !seen_once_rule_iff. split.
  - intros H. split.
    + intros k Hk. specialize (H k Hk). pose proof (occurrences_tail k k0 v0 fs). lia.
    + intros k Hk Hseen. apply seen_In in Hseen. cbn in Hseen.
      destruct Hseen as [E | []]. apply tag_inj in E. subst k0.
      specialize (H k Hk). rewrite occurrences_head in H. lia.
  - intros [H Hfresh] k Hk. destruct (Fragment_cases k k0) as [-> | [Hne E]].
    + rewrite occurrences_head, (Hfresh k0 Hk); [lia |].
      apply seen_In. cbn. now left.
    + cbn [occurrences]. rewrite E. specialize (H k Hk). lia.
Qed.

(** X1. A chain started at the facade returns a string exactly when the
    ranks of its fragments never go down and element, id and
    pseudo-element occur at most once; otherwise it throws. *)
Theorem chain_accepted_iff (h : Heap) (k0 : Fragment) (v0 : string)
    (fs : list (Fragment * string)) :
  (exists s, fst (build k0 v0 fs h) = Normal s)
  <-> ranks_nondecreasing ((k0, v0) :: fs) = true
      /\ seen_once_rule ((k0, v0) :: fs) = true.
Proof.
  rewrite build_run. cbn [ranks_nondecreasing]. rewrite seeded_rules.
  rewrite <- (appends_returns_iff fs
                (Build [prefixed k0 v0] [tag k0] (Some (rank k0))) (rank k0) eq_refl).
  destruct (fst (appends fs _)) as [[] | e]; split.
  - reflexivity.
  - eauto.
  - intros [s Hs]. discriminate.
  - discriminate.
Qed.

End Acceptance.

Section Invariants.
Import CurrentBuilder Grammar.

Lemma appends_throws (fs : list (Fragment * string)) :
  forall (b : t) (e : JsError),
    fst (appends fs b) = Throw e ->
    e = Error uniq_message \/ e = Error order_message.
Proof.
  induction fs as [| [k v] fs IH]; intros b e; cbn [appends].
  - discriminate.
  - unfold bind. destruct (append_throws_or_returns k v b) as [H | [H | H]];
      destruct (append k v b) as [[[] | e'] b1]; cbn [fst] in H; try discriminate.
    + apply IH.
    + intros E. cbn in E. left. congruence.
    + intros E. cbn in E. right. congruence.
Qed.

(** X2. A chain started at the facade throws nothing but the duplicate
    error and the ordering error. *)
Theorem chain_throws_only_its_two_errors (h : Heap) (k0 : Fragment) (v0 : string)
    (fs : list (Fragment * string)) (e : JsError) :
  fst (build k0 v0 fs h) = Throw e ->
  message e = uniq_message \/ message e = order_message.
Proof.
  rewrite build_run.
  destruct (fst (appends fs _)) as [[] | e'] eqn:E; [discriminate |].
  intros H. injection H as <-.
  destruct (appends_throws fs _ e' E) as [-> | ->]; [now left | now right].
Qed.

Lemma chain_throws_only_its_two_errors_witness :
  message (Error order_message) = uniq_message
  \/ message (Error order_message) = order_message.
Proof.
  exact (chain_throws_only_its_two_errors [] FClass "c" [(FId, "main")]
           (Error order_message) eq_refl).
Defined.

(** An attempt that does not return leaves the parts alone; one that
    returns pushes its fragment. *)
Lemma append_stack (k : Fragment) (v : string) (b : t) :
  (fst (append k v b) = Normal tt
   /\ stack (snd (append k v b)) = push (stack b) (prefixed k v))
  \/ (fst (append k v b) <> Normal tt
      /\ stack (snd (append k v b)) = stack b).
Proof.
  destruct (kind_cases k) as [Hu | [Hu | ->]].
  - rewrite (append_uniq_first k v b Hu).
    destruct (seen k b); [right; split; [discriminate | reflexivity] |].
    destruct (js_lt (rank k) (order b));
      [right; split; [discriminate | reflexivity] | left; split; reflexivity].
  - rewrite (append_repeatable k v b Hu).
    destruct (js_lt (rank k) (order b));
      [right; split; [discriminate | reflexivity] | left; split; reflexivity].
  - rewrite append_pseudoElement.
    destruct (js_lt 5 (order b)); [right; split; [discriminate | reflexivity] |].
    destruct (seen FPseudoElement b);
      [right; split; [discriminate | reflexivity] | left; split; reflexivity].
Qed.

(** X3. Append attempts only ever add to the end of the parts: an
    attempt that throws leaves them as they were, and after any run of
    attempts the parts are the old ones followed by the prefixed values of
    some of the attempted fragments, in their order. *)
Theorem attempts_only_extend_parts (fs : list (Fragment * string)) (b : t) :
  (forall k v, fst (append k v b) <> Normal tt ->
     stack (snd (append k v b)) = stack b)
  /\ exists kept,
       sublist kept fs
       /\ stack (attempts fs b)
          = stack b ++ map (fun f => prefixed (fst f) (snd f)) kept.
Proof.
  split.
  - intros k v Hthrow. destruct (append_stack k v b) as [[H _] | [_ H]];
      [contradiction | exact H].
  - revert b. induction fs as [| [k v] fs IH]; intros b.
    + exists []. split; [constructor | now rewrite app_nil_r].
    + cbn [attempts]. destruct (IH (snd (append k v b))) as (kept & Hsub & Hst).
      destruct (append_stack k v b) as [[_ H] | [_ H]]; rewrite H in Hst.
      * exists ((k, v) :: kept). split; [now constructor |].
        rewrite Hst. unfold push. now rewrite <- app_assoc.
      * exists kept. split; [now constructor | exact Hst].
Qed.

Lemma append_order (k : Fragment) (v : string) (b : t) :
  order (snd (append k v b)) = order b
  \/ order (snd (append k v b)) = Some (rank k) /\ js_lt (rank k) (order b) = false.
Proof.
  destruct (kind_cases k) as [Hu | [Hu | ->]].
  - rewrite (append_uniq_first k v b Hu).
    destruct (seen k b); [now left |].
    destruct (js_lt (rank k) (order b)); [now left | now right].
  - rewrite (append_repeatable k v b Hu).
    destruct (js_lt (rank k) (order b)); [now left | now right].
  - rewrite append_pseudoElement. cbn [rank].
    destruct (js_lt 5 (order b)) eqn:E; [now left |].
    destruct (seen FPseudoElement b); now right.
Qed.

(** X4. The rank of a builder never goes down, whatever is attempted on
    it and whether the attempts return or throw. *)
Theorem rank_never_decreases (fs : list (Fragment * string)) (b : t) (r : Z) :
  order b = Some r ->
  exists r', order (attempts fs b) = Some r' /\ r <= r'.
Proof.
  revert b r. induction fs as [| [k v] fs IH]; intros b r Hr; cbn [attempts].
  - exists r. split; [exact Hr | lia].
  - destruct (append_order k v b) as [H | [H Hjs]].
    + rewrite <- H in Hr. exact (IH _ r Hr).
    + rewrite Hr in Hjs. cbn in Hjs. apply Z.ltb_ge in Hjs.
      destruct (IH _ (rank k) H) as (r' & Hr' & Hle).
      exists r'. split; [exact Hr' | lia].
Qed.

Lemma rank_never_decreases_witness :
  exists r',
    order (attempts [(FAttr, "x"); (FId, "y"); (FPseudoClass, "z"); (FClass, "w")]
                    (constructor ".c" (Some 2) (Some "class"))) = Some r'
    /\ 2 <= r'.
Proof.
  exact (rank_never_decreases
           [(FAttr, "x"); (FId, "y"); (FPseudoClass, "z"); (FClass, "w")]
           (constructor ".c" (Some 2) (Some "class")) 2 eq_refl).
Defined.

Lemma append_singleStack (k : Fragment) (v : string) (b : t) :
  singleStack (snd (append k v b)) = singleStack b
  \/ singleStack (snd (append k v b)) = push (singleStack b) (tag k)
     /\ seen k b = false
     /\ (k = FPseudoElement -> order (snd (append k v b)) = Some 5).
Proof.
  destruct (kind_cases k) as [Hu | [Hu | ->]].
  - rewrite (append_uniq_first k v b Hu).
    destruct (seen k b); [now left |].
    destruct (js_lt (rank k) (order b)); right; repeat split;
      intros ->; discriminate.
  - rewrite (append_repeatable k v b Hu).
    destruct (js_lt (rank k) (order b)); now left.
  - rewrite append_pseudoElement.
    destruct (js_lt 5 (order b)); [now left |].
    destruct (seen FPseudoElement b); [now left | right; repeat split].
Qed.

(** No tag is recorded twice. *)
Lemma reachable_NoDup (b : t) :
  reachable b -> List.NoDup (singleStack b).
Proof.
  induction 1 as [k v | s | k v b _ IH | b _ IH | s b _ IH].
  - rewrite seeded_fields. cbn. repeat constructor. intros [].
  - cbn. constructor.
  - destruct (append_singleStack k v b) as [-> | (-> & Hs & _)]; [exact IH |].
    unfold push. apply NoDup_ListNoDup, NoDup_app. split; [| split].
    + now apply NoDup_ListNoDup.
    + intros x Hx Hin. apply list_elem_of_In in Hin. cbn in Hin.
      destruct Hin as [<- | []]. apply seen_not_In in Hs. apply Hs.
      now apply list_elem_of_In.
    + apply NoDup_singleton.
  - exact IH.
  - exact IH.
Qed.

Lemma reachable_pseudoElement_rank (b : t) :
  reachable b -> seen FPseudoElement b = true -> order b = Some 5.
Proof.
  induction 1 as [k v | s | k v b Hb IH | b _ IH | s b _ IH].
  - rewrite seeded_fields. intros Hs. apply seen_In in Hs. cbn in Hs.
    destruct Hs as [E | []]. apply (tag_inj k FPseudoElement) in E. now subst k.
  - intros Hs. discriminate.
  - intros Hs. destruct (append_singleStack k v b) as [E | (E & Hs0 & Hpe)].
    + assert (seen FPseudoElement b = true) as Hsb.
      { apply seen_In. rewrite <- E. now apply seen_In. }
      specialize (IH Hsb).
      pose proof (order_ok_append k v b (reachable_order_ok b Hb)) as Hok.
      destruct (append_order k v b) as [Ho | [Ho Hjs]]; [congruence |].
      rewrite IH in Hjs. cbn in Hjs. apply Z.ltb_ge in Hjs.
      unfold order_ok in Hok. rewrite Ho in Hok. rewrite Ho. f_equal. lia.
    + apply seen_In in Hs. rewrite E in Hs. apply In_push in Hs.
      destruct Hs as [Hin | Heq].
      * assert (seen FPseudoElement b = true) as Hsb by now apply seen_In.
        specialize (IH Hsb).
        pose proof (order_ok_append k v b (reachable_order_ok b Hb)) as Hok.
        destruct (append_order k v b) as [Ho | [Ho Hjs]]; [congruence |].
        rewrite IH in Hjs. cbn in Hjs. apply Z.ltb_ge in Hjs.
        unfold order_ok in Hok. rewrite Ho in Hok. rewrite Ho. f_equal. lia.
      * apply tag_inj in Heq. now apply Hpe.
  - exact IH.
  - exact IH.
Qed.

(** X6. A pseudo-element ends a selector: once a reachable builder has
    recorded one, every further append throws (the duplicate error for a
    kind it has recorded, the ordering error otherwise) and the parts stay
    as they are. *)
Theorem nothing_follows_a_pseudo_element (b : t) (k : Fragment) (v : string) :
  reachable b -> seen FPseudoElement b = true ->
  fst (append k v b)
  = Throw (Error (if once k && seen k b then uniq_message else order_message))
  /\ stack (snd (append k v b)) = stack b.
Proof.
  intros Hb Hs. pose proof (reachable_pseudoElement_rank b Hb Hs) as Ho.
  destruct (kind_cases k) as [Hu | [Hu | ->]].
  - assert (once k = true) as -> by (destruct k; try discriminate; reflexivity).
    assert (js_lt (rank k) (order b) = true) as Hjs
      by (rewrite Ho; destruct k; try discriminate; reflexivity).
    rewrite (append_uniq_first k v b Hu), Hjs. destruct (seen k b); split; reflexivity.
  - assert (js_lt (rank k) (order b) = true) as Hjs
      by (rewrite Ho; destruct k; try discriminate; reflexivity).
    rewrite (append_repeatable k v b Hu), Hjs, Hu. split; reflexivity.
  - rewrite append_pseudoElement, Ho, Hs. split; reflexivity.
Qed.

Lemma nothing_follows_a_pseudo_element_witness :
  fst (append FClass "c" (snd (append FPseudoElement "after"
         (constructor "div" (Some 0) (Some "element")))))
  = Throw (Error order_message)
  /\ stack (snd (append FClass "c" (snd (append FPseudoElement "after"
         (constructor "div" (Some 0) (Some "element"))))))
     = ["div"; "::after"].
Proof.
  exact (nothing_follows_a_pseudo_element
           (snd (append FPseudoElement "after"
                   (constructor "div" (Some 0) (Some "element"))))
           FClass "c"
           (reach_append FPseudoElement "after" _ (reach_seed FElement "div"))
           eq_refl).
Defined.

End Invariants.

Section Reuse.
Import CurrentBuilder Grammar.

(** The completion of an append, and what it records, do not depend on
    the parts; the parts only receive the fragment. *)
Lemma append_any_parts (k : Fragment) (v : string) (b : t) :
  exists c added ss o,
    (c = Normal tt -> added = [prefixed k v])
    /\ forall s, append k v (set_stack s b) = (c, Build (s ++ added) ss o).
Proof.
  assert (forall s, seen k (set_stack s b) = seen k b) as Eseen by reflexivity.
  assert (forall s, order (set_stack s b) = order b) as Eorder by reflexivity.
  assert (forall s, singleStack (set_stack s b) = singleStack b) as Ess by reflexivity.
  assert (forall s, stack (set_stack s b) = s) as Est by reflexivity.
  destruct (kind_cases k) as [Hu | [Hu | ->]].
  - destruct (seen k b) eqn:Hs; [| destruct (js_lt (rank k) (order b)) eqn:Hjs].
    + exists (Throw (Error uniq_message)), [], (singleStack b), (order b).
      split; [discriminate |]. intros s.
      rewrite (append_uniq_first k v _ Hu), Eseen.
      unfold set_stack. now rewrite app_nil_r.
    + exists (Throw (Error order_message)), [],
        (push (singleStack b) (tag k)), (order b).
      split; [discriminate |]. intros s.
      rewrite (append_uniq_first k v _ Hu), Eseen, Eorder, Ess, Hjs.
      unfold set_singleStack, set_stack. cbn [stack singleStack order].
      now rewrite app_nil_r.
    + exists (Normal tt), [prefixed k v],
        (push (singleStack b) (tag k)), (Some (rank k)).
      split; [reflexivity |]. intros s.
      now rewrite (append_uniq_first k v _ Hu), Eseen, Eorder, Ess, Est, Hjs.
  - destruct (js_lt (rank k) (order b)) eqn:Hjs.
    + exists (Throw (Error order_message)), [], (singleStack b), (order b).
      split; [discriminate |]. intros s.
      rewrite (append_repeatable k v _ Hu), Eorder, Hjs.
      unfold set_stack. now rewrite app_nil_r.
    + exists (Normal tt), [prefixed k v], (singleStack b), (Some (rank k)).
      split; [reflexivity |]. intros s.
      now rewrite (append_repeatable k v _ Hu), Eorder, Ess, Est, Hjs.
  - destruct (js_lt 5 (order b)) eqn:Hjs; [| destruct (seen FPseudoElement b) eqn:Hs].
    + exists (Throw (Error order_message)), [], (singleStack b), (order b).
      split; [discriminate |]. intros s.
      rewrite append_pseudoElement, Eorder, Hjs.
      unfold set_stack. now rewrite app_nil_r.
    + exists (Throw (Error uniq_message)), [], (singleStack b), (Some 5).
      split; [discriminate |]. intros s.
      rewrite append_pseudoElement, Eorder, (Eseen s), Hjs.
      unfold set_order, set_stack. cbn [stack singleStack order].
      now rewrite app_nil_r.
    + exists (Normal tt), [prefixed FPseudoElement v],
        (push (singleStack b) "pseudoElement"), (Some 5).
      split; [reflexivity |]. intros s.
      now rewrite append_pseudoElement, Eorder, (Eseen s), Ess, Est, Hjs.
Qed.

Lemma appends_any_parts (fs : list (Fragment * string)) :
  forall b : t,
    exists c added ss o,
      (c = Normal tt -> added = map (fun f => prefixed (fst f) (snd f)) fs)
      /\ forall s, appends fs (set_stack s b) = (c, Build (s ++ added) ss o).
Proof.
  induction fs as [| [k v] fs IH]; intros b.
  - exists (Normal tt), [], (singleStack b), (order b). split; [reflexivity |].
    intros s. cbn. unfold ret, set_stack. now rewrite app_nil_r.
  - destruct (append_any_parts k v b) as (c & added & ss & o & Hadd & Happ).
    destruct c as [[] | e].
    + destruct (IH (Build [] ss o)) as (c2 & added2 & ss2 & o2 & Hadd2 & Happ2).
      exists c2, (added ++ added2), ss2, o2. split.
      * intros Hc. rewrite (Hadd eq_refl), (Hadd2 Hc). reflexivity.
      * intros s. cbn [appends]. unfold bind. rewrite Happ.
        change (Build (s ++ added) ss o) with (set_stack (s ++ added) (Build [] ss o)).
        rewrite Happ2. now rewrite app_assoc.
    + exists (Throw e), added, ss, o. split; [discriminate |].
      intros s. cbn [appends]. unfold bind. now rewrite Happ.
Qed.

Lemma set_stack_same (b : t) : set_stack (stack b) b = b.
Proof. now destruct b. Qed.

(** X7. [stringify()] resets the parts only: the rank and the recorded
    kinds survive it.  A chain of appends made after it is accepted or
    rejected, with the same error, exactly as it would have been without
    it, and when it is accepted the next [stringify()] returns the new
    fragments alone. *)
Theorem appends_after_stringify (fs : list (Fragment * string)) (b : t) :
  fst ((stringify ;; appends fs ;; stringify) b)
  = match fst (appends fs b) with
    | Normal _ => Normal (rendered fs)
    | Throw e => Throw e
    end.
Proof.
  destruct (appends_any_parts fs b) as (c & added & ss & o & Hadd & Happ).
  pose proof (Happ (stack b)) as Hb. rewrite set_stack_same in Hb. rewrite Hb.
  unfold bind, stringify. rewrite (Happ []). cbn [fst].
  destruct c as [[] | e]; [| reflexivity].
  cbn. now rewrite (Hadd eq_refl).
Qed.

Lemma occurrences_repeated (k k' : Fragment) (ws : list string) :
  k' <> k -> occurrences k' (map (pair k) ws) = O.
Proof.
  intros Hne. induction ws as [| w ws IH]; [reflexivity |].
  cbn [map occurrences]. destruct (Fragment_cases k' k) as [E | [_ E]];
    [congruence |]. now rewrite E, IH.
Qed.

Lemma ranks_from_repeated (k : Fragment) (ws : list string) :
  ranks_from (rank k) (map (pair k) ws) = true.
Proof.
  induction ws as [| w ws IH]; [reflexivity |].
  cbn [map ranks_from]. rewrite IH, Z.leb_refl. reflexivity.
Qed.

(** X8. Classes, attributes and pseudo-classes repeat freely: once an
    append of such a kind has returned, any number of further appends of
    that kind return too, and each adds its fragment. *)
Theorem repeatable_kinds_repeat (k : Fragment) (v : string) (ws : list string) (b : t) :
  once k = false -> fst (append k v b) = Normal tt ->
  fst (appends (map (pair k) ws) (snd (append k v b))) = Normal tt
  /\ stack (snd (appends (map (pair k) ws) (snd (append k v b))))
     = stack b ++ prefixed k v :: map (prefixed k) ws.
Proof.
  intros Hk Hret. apply append_returns_iff in Hret as [Hjs Hs].
  rewrite (append_passes k v b Hjs Hs), Hk. cbn [snd].
  destruct (appends_pass (map (pair k) ws)
              (Build (push (stack b) (prefixed k v)) (singleStack b) (Some (rank k)))
              (rank k) eq_refl (ranks_from_repeated k ws)) as [Hfst Hstack].
  - apply seen_once_rule_iff. intros k' Hk'.
    rewrite occurrences_repeated; [lia | congruence].
  - intros k' Hk' Hpos. rewrite occurrences_repeated in Hpos; [lia | congruence].
  - split; [exact Hfst |]. rewrite Hstack. cbn [stack]. unfold push.
    rewrite <- app_assoc, map_map. reflexivity.
Qed.

Lemma repeatable_kinds_repeat_witness :
  fst (appends (map (pair FClass) ["b"; "c"])
         (snd (append FClass "a" (constructor "#main" (Some 1) (Some "id")))))
  = Normal tt
  /\ stack (snd (appends (map (pair FClass) ["b"; "c"])
                   (snd (append FClass "a" (constructor "#main" (Some 1) (Some "id"))))))
     = ["#main"] ++ [".a"; ".b"; ".c"].
Proof.
  exact (repeatable_kinds_repeat FClass "a" ["b"; "c"]
           (constructor "#main" (Some 1) (Some "id")) eq_refl eq_refl).
Defined.

End Reuse.

(** ** More on [combine] *)

Section CombineFrame.
Import CurrentBuilder Grammar.

Lemma after_reads_operands (h : Heap) (A B : ref) (bA bB : t) :
  h !! A = Some bA -> h !! B = Some bB ->
  after_reads h A B bA bB !! A = Some (set_stack [] bA)
  /\ after_reads h A B bA bB !! B = Some (set_stack [] bB).
Proof.
  intros HA HB. pose proof (after_reads_second h A B bA bB HA HB) as H2.
  unfold second_operand in H2. destruct (decide (A = B)) as [E | Hne].
  - subst B. assert (bA = bB) as <- by congruence. split; exact H2.
  - split; [| exact H2]. unfold after_reads.
    rewrite lookup_other by congruence. eapply lookup_updated, HA.
Qed.

(** X9. [combine] takes the parts of its operands and nothing else: after
    the facade's [combine(A, c, B)] both operands have no parts but the
    rank and the recorded kinds they had, every other builder is as it
    was, and the new builder holds the joined string, with no rank and
    nothing recorded. *)
Theorem combine_takes_only_the_parts (h : Heap) (A B : ref) (c : string) (bA bB : t) :
  h !! A = Some bA -> h !! B = Some bB ->
  fst (cssSelectorBuilder.combine A c B h) = Normal (length h)
  /\ snd (cssSelectorBuilder.combine A c B h) !! A
     = Some (Build [] (singleStack bA) (order bA))
  /\ snd (cssSelectorBuilder.combine A c B h) !! B
     = Some (Build [] (singleStack bB) (order bB))
  /\ (forall X bX, X <> A -> X <> B -> h !! X = Some bX ->
        snd (cssSelectorBuilder.combine A c B h) !! X = Some bX)
  /\ exists joined,
       snd (cssSelectorBuilder.combine A c B h) !! length h
       = Some (Build [joined] [] None).
Proof.
  intros HA HB. rewrite (facade_combine_run h A B bA bB HA HB c). cbn [fst snd].
  destruct (after_reads_operands h A B bA bB HA HB) as [H1 H2].
  split; [reflexivity |]. split; [now apply lookup_app_l_Some |].
  split; [now apply lookup_app_l_Some |]. split.
  - intros X bX HXA HXB HX. apply lookup_app_l_Some. rewrite <- HX.
    now apply after_reads_other.
  - eexists. rewrite <- (after_reads_length h A B bA bB). apply lookup_new.
Qed.

Lemma combine_takes_only_the_parts_witness :
  fst (cssSelectorBuilder.combine 0%nat ">" 1%nat
         [Build ["ul"; ".nav"] ["element"] (Some 2); Build ["li"] ["element"] (Some 0)])
  = Normal 2%nat
  /\ snd (cssSelectorBuilder.combine 0%nat ">" 1%nat
         [Build ["ul"; ".nav"] ["element"] (Some 2); Build ["li"] ["element"] (Some 0)])
     !! 0%nat = Some (Build [] ["element"] (Some 2))
  /\ snd (cssSelectorBuilder.combine 0%nat ">" 1%nat
         [Build ["ul"; ".nav"] ["element"] (Some 2); Build ["li"] ["element"] (Some 0)])
     !! 1%nat = Some (Build [] ["element"] (Some 0)).
Proof.
  destruct (combine_takes_only_the_parts
              [Build ["ul"; ".nav"] ["element"] (Some 2);
               Build ["li"] ["element"] (Some 0)] 0%nat 1%nat ">"
              (Build ["ul"; ".nav"] ["element"] (Some 2))
              (Build ["li"] ["element"] (Some 0)) eq_refl eq_refl)
    as (H0 & H1 & H2 & _).
  exact (conj H0 (conj H1 H2)).
Defined.

(** X10. The builder the facade's [combine] returns has no rank and has
    recorded nothing, so it accepts a fragment of any kind: the call
    returns and the fragment comes right after the joined string. *)
Theorem combined_builder_accepts_any_fragment
    (h : Heap) (A B : ref) (c : string) (bA bB : t) (k : Fragment) (v : string) :
  h !! A = Some bA -> h !! B = Some bB ->
  exists joined,
    fst ((r <- cssSelectorBuilder.combine A c B ;; call r stringify) h)
    = Normal joined
    /\ fst ((r <- cssSelectorBuilder.combine A c B ;;
             r' <- send r (append k v) ;;
             call r' stringify) h)
       = Normal (joined +:+ prefixed k v).
Proof.
  intros HA HB.
  exists ((first_read bA +:+ combinatorValue c) +:+ second_read A B bB).
  split; [apply (facade_combine_stringify h A B bA bB HA HB) |].
  unfold bind at 1. rewrite (facade_combine_run h A B bA bB HA HB c).
  set (j := (first_read bA +:+ combinatorValue c) +:+ second_read A B bB).
  set (h2 := after_reads h A B bA bB).
  assert ((h2 ++ [Build [j] [] None]) !! length h = Some (Build [j] [] None)) as Hnew.
  { rewrite <- (after_reads_length h A B bA bB). apply lookup_new. }
  unfold send, bind.
  rewrite (call_lookup _ _ _ _ Hnew).
  rewrite (append_passes k v (Build [j] [] None)) by (reflexivity || intros; reflexivity).
  cbn [fst snd]. unfold ret.
  erewrite call_stringify by (eapply lookup_updated, Hnew).
  cbn [fst stack]. now rewrite join_push.
Qed.

Lemma combined_builder_accepts_any_fragment_witness :
  exists joined,
    fst ((r <- cssSelectorBuilder.combine 0%nat "+" 1%nat ;; call r stringify)
           [Build ["a"; "::after"] ["element"; "pseudoElement"] (Some 5);
            Build ["b"] ["element"] (Some 0)])
    = Normal joined
    /\ fst ((r <- cssSelectorBuilder.combine 0%nat "+" 1%nat ;;
             r' <- send r (append FElement "p") ;;
             call r' stringify)
           [Build ["a"; "::after"] ["element"; "pseudoElement"] (Some 5);
            Build ["b"] ["element"] (Some 0)])
       = Normal (joined +:+ prefixed FElement "p").
Proof.
  exact (combined_builder_accepts_any_fragment
           [Build ["a"; "::after"] ["element"; "pseudoElement"] (Some 5);
            Build ["b"] ["element"] (Some 0)] 0%nat 1%nat "+"
           (Build ["a"; "::after"] ["element"; "pseudoElement"] (Some 5))
           (Build ["b"] ["element"] (Some 0)) FElement "p" eq_refl eq_refl).
Defined.

End CombineFrame.

Section NestedCombine.
Import CurrentBuilder Grammar.

Variables (h : Heap) (A B C : ref) (bA bB bC : t).
Hypothesis HA : h !! A = Some bA.
Hypothesis HB : h !! B = Some bB.
Hypothesis HC : h !! C = Some bC.
Hypothesis HAB : A <> B.
Hypothesis HAC : A <> C.
Hypothesis HBC : B <> C.

Lemma second_read_other (X Y : ref) (bY : t) :
  X <> Y -> second_read X Y bY = join "" (stack bY).
Proof. intros Hne. unfold second_read. now destruct (decide (X = Y)). Qed.

Lemma combine_right_nested (c1 c2 : string) :
  fst ((i <- cssSelectorBuilder.combine B c2 C ;;
        r <- cssSelectorBuilder.combine A c1 i ;;
        call r stringify) h)
  = Normal ((join "" (stack bA) +:+ combinatorValue c1)
            +:+ ((join "" (stack bB) +:+ combinatorValue c2) +:+ join "" (stack bC))).
Proof.
  unfold bind at 1. rewrite (facade_combine_run h B C bB bC HB HC c2).
  set (J := Build _ [] None). set (h1 := after_reads h B C bB bC ++ [J]).
  assert (h1 !! A = Some bA) as HA1.
  { apply lookup_app_l_Some. rewrite <- HA. apply after_reads_other; congruence. }
  assert (h1 !! length h = Some J) as HJ.
  { unfold h1. rewrite <- (after_reads_length h B C bB bC). apply lookup_new. }
  rewrite (facade_combine_stringify h1 A (length h) bA J HA1 HJ c1).
  rewrite second_read_other by (apply lookup_lt_Some in HA; lia).
  unfold J, first_read. cbn [stack]. rewrite join_singleton.
  now rewrite (second_read_other B C bC HBC).
Qed.

Lemma combine_left_nested (c1 c2 : string) :
  fst ((i <- cssSelectorBuilder.combine A c1 B ;;
        r <- cssSelectorBuilder.combine i c2 C ;;
        call r stringify) h)
  = Normal ((((join "" (stack bA) +:+ combinatorValue c1) +:+ join "" (stack bB))
             +:+ combinatorValue c2) +:+ join "" (stack bC)).
Proof.
  unfold bind at 1. rewrite (facade_combine_run h A B bA bB HA HB c1).
  set (J := Build _ [] None). set (h1 := after_reads h A B bA bB ++ [J]).
  assert (h1 !! C = Some bC) as HC1.
  { apply lookup_app_l_Some. rewrite <- HC. apply after_reads_other; congruence. }
  assert (h1 !! length h = Some J) as HJ.
  { unfold h1. rewrite <- (after_reads_length h A B bA bB). apply lookup_new. }
  rewrite (facade_combine_stringify h1 (length h) C J bC HJ HC1 c2).
  rewrite second_read_other by (apply lookup_lt_Some in HC; lia).
  unfold J, first_read. cbn [stack]. rewrite join_singleton.
  now rewrite (second_read_other A B bB HAB).
Qed.

End NestedCombine.

Section NestedCombineProperty.
Import CurrentBuilder Grammar.

(** X11. Combined selectors nest into one flat string: for three
    different builders, [combine(A, c1, combine(B, c2, C))] and
    [combine(combine(A, c1, B), c2, C)] serialize to the same string, the
    three selectors in order with each combinator between its two
    neighbours. *)
Theorem nested_combine_is_flat (h : Heap) (A B C : ref) (bA bB bC : t)
    (c1 c2 : string) :
  h !! A = Some bA -> h !! B = Some bB -> h !! C = Some bC ->
  A <> B -> A <> C -> B <> C ->
  fst ((i <- cssSelectorBuilder.combine B c2 C ;;
        r <- cssSelectorBuilder.combine A c1 i ;;
        call r stringify) h)
  = Normal (join "" (stack bA) +:+ combinatorValue c1 +:+ join "" (stack bB)
            +:+ combinatorValue c2 +:+ join "" (stack bC))
  /\ fst ((i <- cssSelectorBuilder.combine A c1 B ;;
           r <- cssSelectorBuilder.combine i c2 C ;;
           call r stringify) h)
     = Normal (join "" (stack bA) +:+ combinatorValue c1 +:+ join "" (stack bB)
               +:+ combinatorValue c2 +:+ join "" (stack bC)).
Proof.
  intros HA HB HC HAB HAC HBC. split.
  - rewrite (combine_right_nested h A B C bA bB bC HA HB HC HAB HAC HBC).
    now rewrite !string_app_assoc.
  - rewrite (combine_left_nested h A B C bA bB bC HA HB HC HAB HAC HBC).
    now rewrite !string_app_assoc.
Qed.

Lemma nested_combine_is_flat_witness :
  fst ((i <- cssSelectorBuilder.combine 1%nat "~" 2%nat ;;
        r <- cssSelectorBuilder.combine 0%nat "+" i ;;
        call r stringify)
         [Build ["div"; "#main"] ["element"; "id"] (Some 1);
          Build ["table"] ["element"] (Some 0); Build ["tr"] ["element"] (Some 0)])
  = Normal "div#main + table ~ tr"
  /\ fst ((i <- cssSelectorBuilder.combine 0%nat "+" 1%nat ;;
           r <- cssSelectorBuilder.combine i "~" 2%nat ;;
           call r stringify)
         [Build ["div"; "#main"] ["element"; "id"] (Some 1);
          Build ["table"] ["element"] (Some 0); Build ["tr"] ["element"] (Some 0)])
     = Normal "div#main + table ~ tr".
Proof.
  apply (nested_combine_is_flat
           [Build ["div"; "#main"] ["element"; "id"] (Some 1);
            Build ["table"] ["element"] (Some 0); Build ["tr"] ["element"] (Some 0)]
           0%nat 1%nat 2%nat
           (Build ["div"; "#main"] ["element"; "id"] (Some 1))
           (Build ["table"] ["element"] (Some 0)) (Build ["tr"] ["element"] (Some 0))
           "+" "~"); solve [reflexivity | discriminate].
Defined.

End NestedCombineProperty.

(** ** Sessions, rejected appends, and the helpers *)

Section Sessions.
Import CurrentBuilder Grammar Session.

Lemma perform_reachable (c : Call) (h : Heap) :
  Forall reachable h -> Forall reachable (perform c h).
Proof.
  destruct c; cbn [perform].
  - apply seed_reachable.
  - apply facade_combine_reachable.
  - apply send_append_reachable.
  - apply stringify_reachable.
  - apply instance_combine_reachable.
Qed.

Lemma session_reachable (cs : list Call) :
  forall h, Forall reachable h -> Forall reachable (session cs h).
Proof.
  induction cs as [| c cs IH]; intros h Hh; cbn [session].
  - exact Hh.
  - apply IH. now apply perform_reachable.
Qed.

(** X5. Whatever calls a user makes on the facade and on the builders it
    returned, in any order and whether they return or throw, every builder
    keeps a rank that is undefined or one of 0..5, records no tag twice,
    and has rank 5 once it has recorded a pseudo-element. *)
Theorem session_keeps_builders_well_formed (cs : list Call) :
  Forall (fun b => order_ok b
                   /\ List.NoDup (singleStack b)
                   /\ (seen FPseudoElement b = true -> order b = Some 5))
         (session cs []).
Proof.
  eapply Forall_impl; [apply session_reachable; constructor |].
  intros b Hb. cbn beta. split; [now apply reachable_order_ok |].
  split; [now apply reachable_NoDup |].
  now apply reachable_pseudoElement_rank.
Qed.

End Sessions.

Section Atomicity.
Import CurrentBuilder Grammar.

Lemma set_order_same (b : t) (o : option Z) : order b = o -> set_order o b = b.
Proof. intros <-. now destruct b. Qed.

(** X12. A rejected append leaves a reachable builder exactly as it was,
    with one exception: an [element] or [id] rejected by the ordering
    check has already recorded its tag, and changes nothing else. *)
Theorem rejected_append_changes_nothing_else
    (b : t) (k : Fragment) (v : string) (e : JsError) :
  reachable b -> fst (append k v b) = Throw e ->
  snd (append k v b) = b
  \/ (uniq_first k = true /\ e = Error order_message
      /\ snd (append k v b) = set_singleStack (push (singleStack b) (tag k)) b).
Proof.
  intros Hb. destruct (kind_cases k) as [Hu | [Hu | ->]].
  - rewrite (append_uniq_first k v b Hu).
    destruct (seen k b); [now left |].
    destruct (js_lt (rank k) (order b)); [| discriminate].
    intros H. injection H as <-. right. repeat split. exact Hu.
  - rewrite (append_repeatable k v b Hu).
    destruct (js_lt (rank k) (order b)); [now left | discriminate].
  - rewrite append_pseudoElement.
    destruct (js_lt 5 (order b)); [now left |].
    destruct (seen FPseudoElement b) eqn:Hs; [| discriminate].
    intros _. left. cbn [snd]. apply set_order_same.
    now apply reachable_pseudoElement_rank.
Qed.

Lemma rejected_append_changes_nothing_else_witness :
  snd (append FPseudoElement "before"
         (snd (append FPseudoElement "after" (constructor ".c" (Some 2) (Some "class")))))
  = snd (append FPseudoElement "after" (constructor ".c" (Some 2) (Some "class")))
  \/ (uniq_first FPseudoElement = true /\ Error uniq_message = Error order_message
      /\ snd (append FPseudoElement "before"
               (snd (append FPseudoElement "after"
                       (constructor ".c" (Some 2) (Some "class")))))
         = set_singleStack
             (push (singleStack (snd (append FPseudoElement "after"
                                       (constructor ".c" (Some 2) (Some "class")))))
                   (tag FPseudoElement))
             (snd (append FPseudoElement "after"
                     (constructor ".c" (Some 2) (Some "class"))))).
Proof.
  exact (rejected_append_changes_nothing_else
           (snd (append FPseudoElement "after" (constructor ".c" (Some 2) (Some "class"))))
           FPseudoElement "before" (Error uniq_message)
           (reach_append FPseudoElement "after" _ (reach_seed FClass "c")) eq_refl).
Defined.

End Atomicity.

Section JsonEdges.
Import Json.

Variables number fn : Type.
Variable JSON_stringify : value number -> string.
Variable JSON_parse : string -> Completion (value number).


End JsonEdges.

Section JsonEdgesInstance.
Import Json.


End JsonEdgesInstance.

Section RectangleProperties.
Import Shapes.

Variable number : Type.
Variable times : number -> number -> number.


End RectangleProperties.
